(** * Property<T>: an observable value with listeners, validator, coercer
      and one-way bindings (structs/property/property.h)

    A shallow embedding of the C++ template [Property<T>] and proofs of
    properties of its write pipeline, its listener registry and its binding
    propagation.

    Modelling choices, all read off the header:
    - Objects live in a store, a finite map from addresses to [Property]
      records; [Property<T>*] is an address.  A method called on an address
      with no live object, a binding that points to no live object, and a
      second [lock_guard] on a [std::mutex] the running call already holds
      are undefined behaviour in C++: the model then stops with [None]
      instead of a final state.
    - A [T&] parameter is an in/out value: the function receives the content
      of the referenced variable and returns its final content.  The caller's
      variable is a variable of the caller, distinct from the [m_value]
      fields in the store.
    - [std::function] values are either empty or hold a target.  A target
      acts on its reference arguments only (it is a function of their
      contents returning their new contents); every call is recorded in a
      trace, together with every evaluation of [T]'s [operator!=].
    - [T] has a decidable equality and its [operator!=] is the negation of
      that equality.
    - [size_t] is 64 bits wide, with wrap-around on increment.
    - The iteration order of [unordered_map] and [unordered_set] is left to
      the implementation: it is a parameter ([IterOrder]) constrained only
      to enumerate each element once.
    - The mutex matters only through the relock case above: the model is
      sequential. *)

From Stdlib Require Import NArith ZArith Lia.
From stdpp Require Import gmap list.

Abbreviation CallbackID := N (only parsing).
Abbreviation addr := positive (only parsing).

(** [size_t] arithmetic: [nextCallbackID++] wraps at 2^64. *)
Definition size_t_modulus : N := 2 ^ 64.
Definition size_t_incr (n : N) : N := ((n + 1) mod size_t_modulus)%N.

(** [std::type_info] of the target held by a [std::function]; [None] stands
    for [typeid(void)], the answer of an empty [std::function]. *)
Abbreviation type_info := (option positive) (only parsing).

Section Property.
Context {T : Type} `{EqDecision T}.

(** [function<void(T& oldValue, T& newValue)>]: empty, or a target of some
    type acting on its two reference arguments. *)
Inductive ChangeCallback : Type :=
| NoTarget
| Target (ty : positive) (f : T → T → T * T).

(** [function<bool(T& newValue)>] and [function<void(T& newValue)>];
    [None] is the empty function. *)
Definition Validator : Type := option (T → bool * T).
Definition CoerceCallback : Type := option (T → T).

Record Property : Type := mkProperty {
  m_value : T;
  m_callbacks : gmap CallbackID ChangeCallback;
  m_bindings : gset addr;
  m_availableIDs : list CallbackID;   (* queue: front is the head *)
  nextCallbackID : CallbackID;
  m_validator : Validator;
  m_coerceCallback : CoerceCallback
}.

(** Field updates. *)
Definition with_value (v : T) (p : Property) : Property :=
  mkProperty v (m_callbacks p) (m_bindings p) (m_availableIDs p)
             (nextCallbackID p) (m_validator p) (m_coerceCallback p).
Definition with_registry (cbs : gmap CallbackID ChangeCallback)
    (avail : list CallbackID) (next : CallbackID) (p : Property) : Property :=
  mkProperty (m_value p) cbs (m_bindings p) avail next
             (m_validator p) (m_coerceCallback p).
Definition with_bindings (bs : gset addr) (p : Property) : Property :=
  mkProperty (m_value p) (m_callbacks p) bs (m_availableIDs p)
             (nextCallbackID p) (m_validator p) (m_coerceCallback p).
Definition with_validator (v : Validator) (p : Property) : Property :=
  mkProperty (m_value p) (m_callbacks p) (m_bindings p) (m_availableIDs p)
             (nextCallbackID p) v (m_coerceCallback p).
Definition with_coerceCallback (c : CoerceCallback) (p : Property) : Property :=
  mkProperty (m_value p) (m_callbacks p) (m_bindings p) (m_availableIDs p)
             (nextCallbackID p) (m_validator p) c.

(** The constructors: [Property(T value, Validator, CoerceCallback)]; the
    shorter ones leave the missing functions empty. *)
Definition new_Property (value : T) (validator : Validator)
    (coerceCallback : CoerceCallback) : Property :=
  mkProperty value ∅ ∅ [] 0%N validator coerceCallback.

(** Iteration order of the two hash containers. *)
Class IterOrder : Type := {
  map_iter : gmap CallbackID ChangeCallback → list (CallbackID * ChangeCallback);
  map_iter_perm : ∀ m, map_iter m ≡ₚ map_to_list m;
  set_iter : gset addr → list addr;
  set_iter_perm : ∀ s, set_iter s ≡ₚ elements s
}.

Context {ord : IterOrder}.

(** ** Listener registry *)

Definition AddChangeCallback (callback : ChangeCallback) (p : Property)
    : CallbackID * Property :=
  match m_availableIDs p with
  | [] =>
      let id := nextCallbackID p in
      (id, with_registry (<[id := callback]> (m_callbacks p)) []
                         (size_t_incr (nextCallbackID p)) p)
  | id :: rest =>
      (id, with_registry (<[id := callback]> (m_callbacks p)) rest
                         (nextCallbackID p) p)
  end.

Definition target_type (cb : ChangeCallback) : type_info :=
  match cb with NoTarget => None | Target ty _ => Some ty end.

(** [cb.target<void(T&, T&)>()]: a pointer to the target when the target's
    type is the function type [void(T&, T&)].  A target is an object (a
    function pointer, a functor, a closure), never of a function type, so
    the answer is the null pointer for every callback. *)
Definition target_fn (cb : ChangeCallback) : option positive := None.

Definition same_target (callback stored : ChangeCallback) : bool :=
  bool_decide (target_type callback = target_type stored)
  && bool_decide (target_fn callback = target_fn stored).

(** [RemoveChangeCallback(ChangeCallback)]: the first match in iteration
    order is erased and its id queued. *)
Definition RemoveChangeCallback (callback : ChangeCallback) (p : Property)
    : Property :=
  match List.find (λ kv, same_target callback kv.2) (map_iter (m_callbacks p)) with
  | Some (id, _) =>
      with_registry (delete id (m_callbacks p)) (m_availableIDs p ++ [id])
                    (nextCallbackID p) p
  | None => p
  end.

(** [RemoveChangeCallback(CallbackID)]: [erase] answers the number of
    entries removed; the id is queued only when there was one. *)
Definition RemoveChangeCallback_id (id : CallbackID) (p : Property) : Property :=
  match m_callbacks p !! id with
  | Some _ =>
      with_registry (delete id (m_callbacks p)) (m_availableIDs p ++ [id])
                    (nextCallbackID p) p
  | None => p
  end.

Definition SetValidator (validator : Validator) (p : Property) : Property :=
  with_validator validator p.
Definition SetCoerceCallback (c : CoerceCallback) (p : Property) : Property :=
  with_coerceCallback c p.

(** Sequences of registry calls on one object. *)
Inductive registry_op : Type :=
| OpAdd (callback : ChangeCallback)
| OpRemoveId (id : CallbackID)
| OpRemoveCallback (callback : ChangeCallback).

Definition run_op (p : Property) (op : registry_op) : Property :=
  match op with
  | OpAdd cb => (AddChangeCallback cb p).2
  | OpRemoveId id => RemoveChangeCallback_id id p
  | OpRemoveCallback cb => RemoveChangeCallback cb p
  end.

Definition run_ops (ops : list registry_op) (p : Property) : Property :=
  foldl run_op p ops.

(** Adding a list of callbacks in turn: the ids handed out, and the final
    object. *)
Fixpoint add_all (cbs : list ChangeCallback) (p : Property)
    : list CallbackID * Property :=
  match cbs with
  | [] => ([], p)
  | cb :: rest =>
      let '(id, p1) := AddChangeCallback cb p in
      let '(ids, p2) := add_all rest p1 in
      (id :: ids, p2)
  end.

Definition remove_all (ids : list CallbackID) (p : Property) : Property :=
  foldl (λ q id, RemoveChangeCallback_id id q) p ids.

(** ** The write pipeline *)

(** What a run does besides changing state: the calls it makes. *)
Inductive event : Type :=
| EvNeq (p : addr) (current newValue : T)   (* [p->m_value != newValue] *)
| EvCoerce (p : addr) (newValue : T)        (* [p->m_coerceCallback(newValue)] *)
| EvValidate (p : addr) (newValue : T)      (* [p->m_validator(newValue)] *)
| EvCallback (p : addr) (id : CallbackID) (oldValue newValue : T).

(** [if (m_coerceCallback) m_coerceCallback(newValue);] *)
Definition coerce (this : addr) (c : CoerceCallback) (newValue : T)
    : T * list event :=
  match c with
  | Some f => (f newValue, [EvCoerce this newValue])
  | None => (newValue, [])
  end.

(** [!m_validator || m_validator(newValue)] *)
Definition validate (this : addr) (v : Validator) (newValue : T)
    : bool * T * list event :=
  match v with
  | Some f => (f newValue, [EvValidate this newValue])
  | None => (true, newValue, [])
  end.

(** [NotifyCallbacks]: the loop over the listener map. *)
Fixpoint notify_callbacks (this : addr) (l : list (CallbackID * ChangeCallback))
    (oldValue newValue : T) : T * T * list event :=
  match l with
  | [] => (oldValue, newValue, [])
  | (id, NoTarget) :: rest => notify_callbacks this rest oldValue newValue
  | (id, Target _ f) :: rest =>
      let '(o, n) := f oldValue newValue in
      let '(o', n', tr) := notify_callbacks this rest o n in
      (o', n', EvCallback this id oldValue newValue :: tr)
  end.

Definition NotifyCallbacks (this : addr) (p : Property) (oldValue newValue : T)
    : T * T * list event :=
  notify_callbacks this (map_iter (m_callbacks p)) oldValue newValue.

(** The body of the loop of [NotifyBindings], on the bound object [b]:
    the object afterwards, the content of [newValue] afterwards, the calls. *)
Definition offer (binding : addr) (b : Property) (newValue : T)
    : Property * T * list event :=
  if bool_decide (m_value b ≠ newValue) then
    let '(nv1, t1) := coerce binding (m_coerceCallback b) newValue in
    let '(ok, nv2, t2) := validate binding (m_validator b) nv1 in
    (if ok then with_value nv2 b else b, nv2,
     EvNeq binding (m_value b) newValue :: t1 ++ t2)
  else (b, newValue, [EvNeq binding (m_value b) newValue]).

(** [NotifyBindings]: the loop over the binding set.  The caller holds
    [this]'s mutex, so locking [binding->m_mutex] with [binding = this]
    does not return; a binding with no live object is a dangling pointer. *)
Fixpoint notify_bindings (this : addr) (l : list addr)
    (σ : gmap addr Property) (newValue : T)
    : list event * option (gmap addr Property * T) :=
  match l with
  | [] => ([], Some (σ, newValue))
  | binding :: rest =>
      if bool_decide (binding = this) then ([], None)
      else match σ !! binding with
           | None => ([], None)
           | Some b =>
               let '(b', nv, t) := offer binding b newValue in
               let '(t', r) := notify_bindings this rest (<[binding := b']> σ) nv in
               (t ++ t', r)
           end
  end.

Definition NotifyBindings (this : addr) (p : Property)
    (σ : gmap addr Property) (oldValue newValue : T)
    : list event * option (gmap addr Property * T) :=
  notify_bindings this (set_iter (m_bindings p)) σ newValue.

(** [Property<T>& operator=(T& newValue)]: the calls made, and, when the
    call returns, the store and the content of the caller's variable. *)
Definition operator_assign (this : addr) (newValue : T) (σ : gmap addr Property)
    : list event * option (gmap addr Property * T) :=
  match σ !! this with
  | None => ([], None)
  | Some p =>
      if bool_decide (m_value p ≠ newValue) then
        let '(nv1, t1) := coerce this (m_coerceCallback p) newValue in
        let '(ok, nv2, t2) := validate this (m_validator p) nv1 in
        if ok then
          let oldValue := m_value p in
          let σ1 := <[this := with_value nv2 p]> σ in
          let '(oldValue', nv3, t3) := NotifyCallbacks this p oldValue nv2 in
          let '(t4, r) := NotifyBindings this p σ1 oldValue' nv3 in
          (EvNeq this (m_value p) newValue :: t1 ++ t2 ++ t3 ++ t4, r)
        else (EvNeq this (m_value p) newValue :: t1 ++ t2, Some (σ, nv2))
      else ([EvNeq this (m_value p) newValue], Some (σ, newValue))
  end.

(** [operator T() const] *)
Definition read (this : addr) (σ : gmap addr Property) : option T :=
  m_value <$> σ !! this.

(** ** Bindings *)

Definition AddOneWayBind (this other : addr) (σ : gmap addr Property)
    : option (gmap addr Property) :=
  p ← σ !! this;
  Some (<[this := with_bindings ({[other]} ∪ m_bindings p) p]> σ).

Definition RemoveOneWayBind (this other : addr) (σ : gmap addr Property)
    : option (gmap addr Property) :=
  p ← σ !! this;
  Some (<[this := with_bindings (m_bindings p ∖ {[other]}) p]> σ).

Definition AddOneWayToSourceBind (this other : addr) (σ : gmap addr Property)
    : option (gmap addr Property) :=
  AddOneWayBind other this σ.

Definition RemoveOneWayToSourceBind (this other : addr) (σ : gmap addr Property)
    : option (gmap addr Property) :=
  RemoveOneWayBind other this σ.

Definition AddBind (this other : addr) (σ : gmap addr Property)
    : option (gmap addr Property) :=
  σ1 ← AddOneWayBind this other σ;
  AddOneWayToSourceBind this other σ1.

Definition RemoveBind (this other : addr) (σ : gmap addr Property)
    : option (gmap addr Property) :=
  σ1 ← RemoveOneWayBind this other σ;
  RemoveOneWayToSourceBind this other σ1.

(** ** Vocabulary for the statements *)

(** Content of [newValue] after the coercer, and the validator's verdict
    and the content it leaves. *)
Definition coerced (c : CoerceCallback) (v : T) : T :=
  match c with Some f => f v | None => v end.
Definition verdict (vd : Validator) (v : T) : bool :=
  match vd with Some f => (f v).1 | None => true end.
Definition validated (vd : Validator) (v : T) : T :=
  match vd with Some f => (f v).2 | None => v end.

(** A write of [v] to [p] commits: it passes the inequality test and the
    validator; [commit_value] is what is then stored. *)
Definition commits (p : Property) (v : T) : Prop :=
  m_value p ≠ v ∧ verdict (m_validator p) (coerced (m_coerceCallback p) v) = true.
Definition commit_value (p : Property) (v : T) : T :=
  validated (m_validator p) (coerced (m_coerceCallback p) v).

(** Contents of [oldValue] and [newValue] after the listeners in [l] ran
    in turn. *)
Fixpoint after_callbacks (l : list (CallbackID * ChangeCallback))
    (oldValue newValue : T) : T * T :=
  match l with
  | [] => (oldValue, newValue)
  | (_, NoTarget) :: rest => after_callbacks rest oldValue newValue
  | (_, Target _ f) :: rest =>
      let '(o, n) := f oldValue newValue in after_callbacks rest o n
  end.

(** What a bound object [b] holds after it was offered [w], and what the
    shared variable holds then. *)
Definition offered_value (b : Property) (w : T) : T :=
  if bool_decide (m_value b ≠ w) then
    if verdict (m_validator b) (coerced (m_coerceCallback b) w)
    then validated (m_validator b) (coerced (m_coerceCallback b) w)
    else m_value b
  else m_value b.
Definition passed_on (b : Property) (w : T) : T :=
  if bool_decide (m_value b ≠ w)
  then validated (m_validator b) (coerced (m_coerceCallback b) w)
  else w.

(** The shared variable after the bound objects in [l] were visited in
    turn, each in its state in [σ]. *)
Definition passed_along (σ : gmap addr Property) (l : list addr) (w : T) : T :=
  foldl (λ x binding,
           match σ !! binding with Some b => passed_on b x | None => x end) w l.

(** The shared variable after the coercers alone of the bound objects in
    [l] whose value differs from it, in turn. *)
Definition coerced_along (σ : gmap addr Property) (l : list addr) (w : T) : T :=
  foldl (λ x binding,
           match σ !! binding with
           | Some b => if bool_decide (m_value b ≠ x)
                       then coerced (m_coerceCallback b) x else x
           | None => x
           end) w l.

(** A validator, or every listener of a list, leaves [newValue] as it
    found it. *)
Definition validator_keeps (vd : Validator) : Prop :=
  ∀ x, validated vd x = x.
Definition listeners_keep (l : list (CallbackID * ChangeCallback)) : Prop :=
  ∀ id ty f, (id, Target ty f) ∈ l → ∀ o n, (f o n).2 = n.

(** What the caller's variable holds when a write of [v] to [p] returns. *)
Definition final_variable (σ : gmap addr Property) (p : Property) (v : T) : T :=
  if bool_decide (m_value p ≠ v) then
    if verdict (m_validator p) (coerced (m_coerceCallback p) v) then
      passed_along σ (set_iter (m_bindings p))
        (after_callbacks (map_iter (m_callbacks p))
           (m_value p) (commit_value p v)).2
    else commit_value p v
  else v.

(** The calls made by the coercer step, the validator step and one
    propagation step. *)
Definition coerce_calls (this : addr) (c : CoerceCallback) (v : T) : list event :=
  match c with Some _ => [EvCoerce this v] | None => [] end.
Definition validate_calls (this : addr) (vd : Validator) (v : T) : list event :=
  match vd with Some _ => [EvValidate this v] | None => [] end.
Definition offer_calls (binding : addr) (b : Property) (w : T) : list event :=
  EvNeq binding (m_value b) w ::
  if bool_decide (m_value b ≠ w)
  then coerce_calls binding (m_coerceCallback b) w
       ++ validate_calls binding (m_validator b) (coerced (m_coerceCallback b) w)
  else [].

(** The invariant of the registry: the queue of released ids has no
    repetition and none of its ids is registered. *)
Definition registry_inv (p : Property) : Prop :=
  NoDup (m_availableIDs p) ∧
  ∀ id, id ∈ m_availableIDs p → m_callbacks p !! id = None.

Definition is_callback_of (this : addr) (e : event) : bool :=
  match e with EvCallback p _ _ _ => bool_decide (p = this) | _ => false end.
Definition is_callback (e : event) : bool :=
  match e with EvCallback _ _ _ _ => true | _ => false end.
Definition is_call_of (this : addr) (id : CallbackID) (e : event) : bool :=
  match e with
  | EvCallback p i _ _ => bool_decide (p = this) && bool_decide (i = id)
  | _ => false
  end.
Definition event_owner (e : event) : addr :=
  match e with
  | EvNeq p _ _ | EvCoerce p _ | EvValidate p _ | EvCallback p _ _ _ => p
  end.

End Property.

Arguments ChangeCallback T : clear implicits.
Arguments Validator T : clear implicits.
Arguments CoerceCallback T : clear implicits.
Arguments Property T : clear implicits.
Arguments IterOrder T : clear implicits.
Arguments event T : clear implicits.
Arguments registry_op T : clear implicits.

(** Identifiers minted by [k] successive [nextCallbackID++] from [next]. *)
Fixpoint fresh_ids (next : N) (k : nat) : list N :=
  match k with
  | O => []
  | S k' => next :: fresh_ids (size_t_incr next) k'
  end.

(** Two iteration orders: the order in which [map_to_list] and [elements]
    enumerate, and its reverse. *)
Definition table_order (T : Type) : IterOrder T :=
  {| map_iter := map_to_list;
     map_iter_perm := λ m, Permutation_refl _;
     set_iter := elements;
     set_iter_perm := λ s, Permutation_refl _ |}.

Definition reverse_table_order (T : Type) : IterOrder T :=
  {| map_iter := λ m, reverse (map_to_list m);
     map_iter_perm := λ m, reverse_Permutation _;
     set_iter := λ s, reverse (elements s);
     set_iter_perm := λ s, reverse_Permutation _ |}.

(** ** Example objects, with the integers for [T] *)

Module Examples.
Local Open Scope Z_scope.

(** A listener that only looks at its arguments, and one that overwrites
    [newValue]. *)
Definition observer : ChangeCallback Z := Target 1 (λ o n, (o, n)).
Definition overwrite (x : Z) : ChangeCallback Z := Target 2 (λ o _, (o, x)).

Definition positive_only : Validator Z := Some (λ x, (0 <? x, x)).
Definition clamp (lo hi : Z) : CoerceCallback Z := Some (λ x, Z.max lo (Z.min hi x)).
Definition plus (k : Z) : CoerceCallback Z := Some (λ x, x + k).

Definition listened (p : Property Z) : Property Z :=
  (AddChangeCallback observer p).2.

(** [Property<int> a(5, positive_only)] with one listener. *)
Definition guarded : gmap addr (Property Z) :=
  {[ 1%positive := listened (new_Property 5 positive_only None) ]}.


(** [Property<int> a(5, plus(1))]: the coercer would change a written 5. *)
Definition bumping : gmap addr (Property Z) :=
  {[ 1%positive := listened (new_Property 5 None (plus 1)) ]}.

(** Three plain objects with a listener each, at addresses 1, 2, 3. *)
Definition three : gmap addr (Property Z) :=
  {[ 1%positive := listened (new_Property 0 None None);
     2%positive := listened (new_Property 0 None None);
     3%positive := listened (new_Property 0 None None) ]}.

(** 1 bound to 2 and 2 bound to 3. *)
Definition chain : gmap addr (Property Z) :=
  default three (AddOneWayBind 1 2 three ≫= AddOneWayBind 2 3).

(** 1 and 2 bound both ways. *)
Definition linked : gmap addr (Property Z) :=
  default three (AddBind 1 2 three).

(** 1 bound to 2 and to 3, each of which has a coercer. *)
Definition fan_out_from (source : Property Z) : gmap addr (Property Z) :=
  let σ : gmap addr (Property Z) :=
    {[ 1%positive := source;
       2%positive := new_Property 0 None (plus 100);
       3%positive := new_Property 0 None (plus 1000) ]} in
  default σ (AddOneWayBind 1 2 σ ≫= AddOneWayBind 1 3).

Definition fan_out : gmap addr (Property Z) :=
  fan_out_from (new_Property 0 None None).

(** The same, with a listener on 1 that overwrites [newValue] with 50. *)
Definition fan_out_overwritten : gmap addr (Property Z) :=
  fan_out_from (AddChangeCallback (overwrite 50) (new_Property 0 None None)).2.

(** [fan_out] with three listeners on 1, each overwriting [newValue]. *)
Definition fan_out_rewritten : gmap addr (Property Z) :=
  fan_out_from
    (add_all [overwrite 50; overwrite 60; overwrite 70]
             (new_Property 0 None None)).2.

(** One object, no coercer anywhere, a listener that overwrites
    [newValue] with 42. *)
Definition overwritten : gmap addr (Property Z) :=
  {[ 1%positive := (AddChangeCallback (overwrite 42) (new_Property 0 None None)).2 ]}.

(** After a write that returned: the value an object holds, and the
    content of the caller's variable. *)
Definition value_after (r : option (gmap addr (Property Z) * Z)) (x : addr)
    : option Z :=
  r ≫= λ '(σ, _), read x σ.
Definition caller_variable (r : option (gmap addr (Property Z) * Z)) : option Z :=
  snd <$> r.
(** The writes studied below: 7 written to object 1, under both orders. *)
Definition fan_out_run := operator_assign (ord := table_order Z) 1 7 fan_out.
Definition fan_out_run_rev := operator_assign (ord := reverse_table_order Z) 1 7 fan_out.
Definition rewritten_run :=
  operator_assign (ord := table_order Z) 1 7 fan_out_rewritten.
Definition rewritten_run_rev :=
  operator_assign (ord := reverse_table_order Z) 1 7 fan_out_rewritten.
Definition overwritten_run := operator_assign (ord := table_order Z) 1 7 overwritten.
End Examples.

(** ** Further example objects *)

Module MoreExamples.
Import Examples.
Local Open Scope Z_scope.

(** A listener of the same target type as [observer], with another
    function: it exchanges its arguments. *)
Definition exchanger : ChangeCallback Z := Target 1 (λ o n, (n, o)).

Definition some_calls : list (registry_op Z) :=
  [OpAdd observer; OpAdd observer; OpRemoveId 0; OpAdd exchanger;
   OpRemoveCallback observer].

(** An object whose counter has reached 2^64 - 1, with a listener under 0. *)
Definition worn : Property Z :=
  mkProperty 0 {[ 0%N := observer ]} ∅ [] (size_t_modulus - 1) None None.

(** [Property<int> a(99, clamp(0, 99))] with one listener. *)
Definition at_bound : gmap addr (Property Z) :=
  {[ 1%positive := listened (new_Property 99 None (clamp 0 99)) ]}.

Definition reject_all : Validator Z := Some (λ x, (false, x)).

(** [Property<int> a(5, positive_only, plus(1))], just constructed. *)
Definition fresh : gmap addr (Property Z) :=
  {[ 1%positive := new_Property 5 positive_only (plus 1) ]}.

(** Three plain objects at 1, 2, 3, each with a listener that overwrites
    [newValue] with 0, the value they all hold. *)
Definition hushed (p : Property Z) : Property Z :=
  (AddChangeCallback (overwrite 0) p).2.
Definition three_hushed : gmap addr (Property Z) :=
  {[ 1%positive := hushed (new_Property 0 None None);
     2%positive := hushed (new_Property 0 None None);
     3%positive := hushed (new_Property 0 None None) ]}.

(** 1 bound to 2 and 2 bound to 3; and 1 and 2 bound both ways. *)
Definition chain_hushed : gmap addr (Property Z) :=
  default three_hushed (AddOneWayBind 1 2 three_hushed ≫= AddOneWayBind 2 3).
Definition linked_hushed : gmap addr (Property Z) :=
  default three_hushed (AddBind 1 2 three_hushed).

(** 7 written to object 1 of the chain, under both orders; 7 written to
    object 1 and to object 2 of the linked pair. *)
Definition chain_hushed_run :=
  operator_assign (ord := table_order Z) 1 7 chain_hushed.
Definition chain_hushed_run_rev :=
  operator_assign (ord := reverse_table_order Z) 1 7 chain_hushed.
Definition linked_hushed_run_1 :=
  operator_assign (ord := table_order Z) 1 7 linked_hushed.
Definition linked_hushed_run_2 :=
  operator_assign (ord := table_order Z) 2 7 linked_hushed.

End MoreExamples.

(** ** Vocabulary for further properties *)

Section Vocabulary.
Context {T : Type} `{EqDecision T}.

(** Every identifier below the counter is either registered or queued, and
    no other identifier is. *)
Definition ids_accounted (p : Property T) : Prop :=
  ∀ id : CallbackID,
    (is_Some (m_callbacks p !! id) ∨ id ∈ m_availableIDs p)
    ↔ (id < nextCallbackID p)%N.

(** [p'] is [p] but for its value. *)
Definition same_but_value (p p' : Property T) : Prop :=
  p' = with_value (m_value p') p.

(** [p'] is [p] but for its set of bindings. *)
Definition same_but_bindings (p p' : Property T) : Prop :=
  p' = with_bindings (m_bindings p') p.

(** The value held passes the object's validator. *)
Definition holds_valid (p : Property T) : Prop :=
  verdict (m_validator p) (m_value p) = true.

(** Number of calls of listener [id] of [this] in a trace. *)
Definition calls_of (this : addr) (id : CallbackID) (tr : list (event T)) : nat :=
  length (filter (λ e, is_call_of this id e = true) tr).

End Vocabulary.

(** Liveness of the bound objects of a concrete store. *)
Ltac all_bound_alive :=
  match goal with
  | |- ∀ x, x ∈ ?S → is_Some (?σ !! x) =>
      change (set_Forall (λ x, is_Some (σ !! x)) S); compute_done
  end.

(** The members of an explicit finite set, one goal for each. *)
Ltac each_member H :=
  apply elem_of_elements in H; vm_compute in H;
  repeat (apply elem_of_cons in H as [->|H]); [..|by apply elem_of_nil in H].

(** Membership in an explicit list. *)
Ltac in_list := repeat first [apply list_elem_of_here | apply list_elem_of_further].

(** ** Theory *)

Section Theory.
Context {T : Type} `{EqDecision T} {ord : IterOrder T}.
Implicit Types (p : Property T) (σ : gmap addr (Property T)).
Implicit Types (cb : ChangeCallback T) (id : CallbackID) (this : addr).
Implicit Types (value v w o n : T) (vd : Validator T) (c : CoerceCallback T).
Implicit Types (e : event T) (b : Property T) (y : addr).

(** *** Listener registry *)

Lemma registry_inv_new value vd c : registry_inv (new_Property value vd c).
Proof.
  split; simpl; [constructor|]. intros id Hid. by apply elem_of_nil in Hid.
Qed.

Lemma registry_inv_add cb p :
  registry_inv p → registry_inv (AddChangeCallback cb p).2.
Proof.
  intros [Hnd Hfree]. unfold AddChangeCallback.
  destruct (m_availableIDs p) as [|id rest] eqn:Hq; simpl.
  - split; simpl; [constructor|]. intros x Hx. by apply elem_of_nil in Hx.
  - apply NoDup_cons in Hnd as [Hid Hrest]. split; simpl; [done|].
    intros x Hx. rewrite lookup_insert_ne.
    + apply Hfree. by right.
    + intros ->. done.
Qed.

Lemma registry_inv_release id p :
  registry_inv p → is_Some (m_callbacks p !! id) →
  registry_inv (with_registry (delete id (m_callbacks p))
                  (m_availableIDs p ++ [id]) (nextCallbackID p) p).
Proof.
  intros [Hnd Hfree] [cb Hcb]. split; simpl.
  - apply NoDup_app. split_and!; [done| |apply NoDup_singleton].
    intros x Hx Hx'. apply list_elem_of_singleton in Hx' as ->.
    apply Hfree in Hx. congruence.
  - intros x Hx. apply elem_of_app in Hx as [Hx|Hx].
    + destruct (decide (x = id)) as [->|Hne].
      * apply lookup_delete_eq.
      * rewrite lookup_delete_ne; auto.
    + apply list_elem_of_singleton in Hx as ->. apply lookup_delete_eq.
Qed.

Lemma registry_inv_remove_id id p :
  registry_inv p → registry_inv (RemoveChangeCallback_id id p).
Proof.
  intros Hinv. unfold RemoveChangeCallback_id.
  destruct (m_callbacks p !! id) eqn:Hid; [|done].
  apply registry_inv_release; eauto.
Qed.

Lemma map_iter_lookup (m : gmap CallbackID (ChangeCallback T)) id cb :
  (id, cb) ∈ map_iter m ↔ m !! id = Some cb.
Proof. rewrite map_iter_perm. apply elem_of_map_to_list. Qed.

Lemma map_iter_NoDup_fst (m : gmap CallbackID (ChangeCallback T)) :
  NoDup (map_iter m).*1.
Proof. rewrite map_iter_perm. apply NoDup_fst_map_to_list. Qed.

Lemma set_iter_elem_of (s : gset addr) x : x ∈ set_iter s ↔ x ∈ s.
Proof. rewrite set_iter_perm. apply elem_of_elements. Qed.

Lemma set_iter_NoDup (s : gset addr) : NoDup (set_iter s).
Proof. rewrite set_iter_perm. apply NoDup_elements. Qed.

Lemma registry_inv_remove cb p :
  registry_inv p → registry_inv (RemoveChangeCallback cb p).
Proof.
  intros Hinv. unfold RemoveChangeCallback.
  destruct (List.find _ _) as [[id cb']|] eqn:Hfind; [|done].
  apply find_some in Hfind as [Hin _].
  apply list_elem_of_In, map_iter_lookup in Hin.
  apply registry_inv_release; eauto.
Qed.

Lemma registry_inv_run_ops ops p :
  registry_inv p → registry_inv (run_ops ops p).
Proof.
  unfold run_ops. revert p. induction ops as [|op ops IH]; intros p Hinv; [done|].
  simpl. apply IH. destruct op; simpl;
    auto using registry_inv_add, registry_inv_remove_id, registry_inv_remove.
Qed.

Lemma RemoveChangeCallback_id_absent id p :
  m_callbacks p !! id = None → RemoveChangeCallback_id id p = p.
Proof. intros Hid. unfold RemoveChangeCallback_id. by rewrite Hid. Qed.

(** C8. In every state reached from a constructed object by any sequence
    of [AddChangeCallback], [RemoveChangeCallback(id)] and
    [RemoveChangeCallback(callback)], no registered id is in the queue of
    available ids (and the queue holds no id twice); removing an id that
    is not registered changes nothing, so queues nothing. *)
Theorem registered_ids_not_available value vd c (ops : list (registry_op T)) :
  let p := run_ops ops (new_Property value vd c) in
  (∀ id, is_Some (m_callbacks p !! id) → id ∉ m_availableIDs p)
  ∧ NoDup (m_availableIDs p)
  ∧ (∀ id, m_callbacks p !! id = None → RemoveChangeCallback_id id p = p).
Proof.
  intros p.
  destruct (registry_inv_run_ops ops _ (registry_inv_new value vd c))
    as [Hnd Hfree].
  split_and!; [|done|intros id Hid; by apply RemoveChangeCallback_id_absent].
  intros id [cb Hcb] Hin. apply Hfree in Hin. fold p in Hin. congruence.
Qed.

(** *** The steps of the write pipeline *)

Lemma coerce_eq this c v :
  coerce this c v = (coerced c v, coerce_calls this c v).
Proof. by destruct c. Qed.

Lemma validate_eq this vd v :
  validate this vd v = (verdict vd v, validated vd v, validate_calls this vd v).
Proof. destruct vd as [f|]; simpl; [|done]. by destruct (f v). Qed.

Lemma with_value_same p : with_value (m_value p) p = p.
Proof. by destruct p. Qed.

Lemma offer_eq y b w :
  offer y b w = (with_value (offered_value b w) b, passed_on b w, offer_calls y b w).
Proof.
  unfold offer, offered_value, passed_on, offer_calls.
  case_bool_decide; [|by rewrite with_value_same].
  rewrite coerce_eq, validate_eq.
  destruct (verdict _ _); [done|]. by rewrite with_value_same.
Qed.

Lemma notify_callbacks_values this l o n :
  (notify_callbacks this l o n).1 = after_callbacks l o n.
Proof.
  revert o n. induction l as [|[id [|ty f]] l IH]; intros o n; simpl; [done|done|].
  destruct (f o n) as [o1 n1]. specialize (IH o1 n1).
  by destruct (notify_callbacks this l o1 n1) as [[??]?].
Qed.

Lemma after_callbacks_app l1 l2 o n :
  after_callbacks (l1 ++ l2) o n =
    after_callbacks l2 (after_callbacks l1 o n).1 (after_callbacks l1 o n).2.
Proof.
  revert o n. induction l1 as [|[id [|ty f]] l1 IH]; intros o n; simpl; [done|done|].
  by destruct (f o n).
Qed.

(** The calls of the listener loop are calls of [this]'s listeners. *)
Lemma notify_callbacks_calls this l o n e :
  e ∈ (notify_callbacks this l o n).2 →
  ∃ id ty f o' n', e = EvCallback this id o' n' ∧ (id, Target ty f) ∈ l.
Proof.
  revert o n. induction l as [|[id [|ty f]] l IH]; intros o n; simpl.
  - intros He. by apply elem_of_nil in He.
  - intros He. destruct (IH _ _ He) as (i & t & g & o' & n' & -> & Hin).
    exists i, t, g, o', n'. split; [done|by right].
  - destruct (f o n) as [o1 n1]. specialize (IH o1 n1).
    destruct (notify_callbacks this l o1 n1) as [[o2 n2] tr]. simpl in *.
    intros [->|He]%elem_of_cons.
    + exists id, ty, f, o, n. split; [done|by left].
    + destruct (IH He) as (i & t & g & o' & n' & -> & Hin).
      exists i, t, g, o', n'. split; [done|by right].
Qed.

(** A listener holding a target is called once, with the contents the
    listeners before it left. *)
Lemma notify_callbacks_call this l1 id ty f l2 o n :
  EvCallback this id (after_callbacks l1 o n).1 (after_callbacks l1 o n).2
    ∈ (notify_callbacks this (l1 ++ (id, Target ty f) :: l2) o n).2.
Proof.
  revert o n. induction l1 as [|[i [|t g]] l1 IH]; intros o n; simpl.
  - destruct (f o n) as [o1 n1].
    destruct (notify_callbacks this l2 o1 n1) as [[??]?]. by left.
  - apply IH.
  - destruct (g o n) as [o1 n1]. specialize (IH o1 n1).
    destruct (notify_callbacks this (l1 ++ _) o1 n1) as [[??]?]. by right.
Qed.

Lemma notify_callbacks_count this l o n id :
  NoDup l.*1 →
  length (filter (λ e, is_call_of this id e = true) (notify_callbacks this l o n).2)
  = match list_to_map (M := gmap CallbackID (ChangeCallback T)) l !! id with
    | Some (Target _ _) => 1
    | _ => 0
    end.
Proof.
  revert o n. induction l as [|[i cb] l IH]; intros o n Hnd; simpl; [done|].
  apply NoDup_cons in Hnd as [Hi Hnd].
  assert (Hskip : ∀ o1 n1, i = id →
    length (filter (λ e, is_call_of this id e = true)
              (notify_callbacks this l o1 n1).2) = 0).
  { intros o1 n1 ->. rewrite IH by done.
    rewrite (not_elem_of_list_to_map_1 _ id); [done|]. exact Hi. }
  destruct cb as [|ty f].
  - destruct (decide (i = id)) as [Heq|Hne].
    + rewrite Hskip by done. subst. by rewrite lookup_insert_eq.
    + rewrite lookup_insert_ne by done. by apply IH.
  - destruct (f o n) as [o1 n1]. specialize (IH o1 n1 Hnd).
    specialize (Hskip o1 n1).
    destruct (notify_callbacks this l o1 n1) as [[o2 n2] tr]. simpl in *.
    rewrite filter_cons. simpl.
    destruct (decide (i = id)) as [Heq|Hne].
    + subst. rewrite lookup_insert_eq.
      rewrite decide_True; [|by rewrite !bool_decide_eq_true_2].
      simpl. by rewrite Hskip.
    + rewrite lookup_insert_ne by done.
      rewrite decide_False; [done|].
      rewrite bool_decide_eq_true_2 by done.
      rewrite bool_decide_eq_false_2 by done. done.
Qed.


Lemma map_iter_to_map (m : gmap CallbackID (ChangeCallback T)) :
  list_to_map (map_iter m) = m.
Proof.
  rewrite (list_to_map_proper _ (map_to_list m)).
  - apply list_to_map_to_list.
  - apply map_iter_NoDup_fst.
  - apply map_iter_perm.
Qed.

Lemma is_call_of_callback this id e :
  is_call_of this id e = true → is_callback e = true ∧ event_owner e = this.
Proof.
  destruct e; simpl; try done.
  intros [Hp _]%andb_true_iff. by apply bool_decide_eq_true in Hp.
Qed.

Lemma no_calls_among this id (tr : list (event T)) :
  (∀ e, e ∈ tr → is_callback e = false) →
  filter (λ e, is_call_of this id e = true) tr = [].
Proof.
  induction tr as [|e tr IH]; intros Hno; [done|].
  rewrite filter_cons_False.
  - apply IH. intros e' He'. apply Hno. by right.
  - intros [Hcb _]%is_call_of_callback. rewrite Hno in Hcb; [done|by left].
Qed.

Lemma coerce_calls_owner this c v e :
  e ∈ coerce_calls this c v → event_owner e = this ∧ is_callback e = false.
Proof.
  destruct c; simpl; [|by intros ?%elem_of_nil].
  by intros ->%list_elem_of_singleton.
Qed.

Lemma validate_calls_owner this vd v e :
  e ∈ validate_calls this vd v → event_owner e = this ∧ is_callback e = false.
Proof.
  destruct vd; simpl; [|by intros ?%elem_of_nil].
  by intros ->%list_elem_of_singleton.
Qed.

Lemma offer_calls_owner y b w e :
  e ∈ offer_calls y b w → event_owner e = y ∧ is_callback e = false.
Proof.
  unfold offer_calls. intros [->|He]%elem_of_cons; [done|].
  case_bool_decide; [|by apply elem_of_nil in He].
  apply elem_of_app in He as [He|He];
    eauto using coerce_calls_owner, validate_calls_owner.
Qed.

(** *** Propagation *)

Lemma passed_along_ext σ1 σ2 (l : list addr) w :
  (∀ x, x ∈ l → σ1 !! x = σ2 !! x) →
  passed_along σ1 l w = passed_along σ2 l w.
Proof.
  unfold passed_along. revert w.
  induction l as [|y l IH]; intros w Hext; [done|]. simpl.
  rewrite (Hext y) by by left. apply IH. intros x Hx. apply Hext. by right.
Qed.

Lemma passed_along_cons σ y b (l : list addr) w :
  σ !! y = Some b →
  passed_along σ (y :: l) w = passed_along σ l (passed_on b w).
Proof. intros Hy. unfold passed_along. simpl. by rewrite Hy. Qed.

(** The calls of the propagation loop are made on bound objects other
    than [this], and none of them is a listener call. *)
Lemma notify_bindings_calls this (l : list addr) σ w e :
  e ∈ (notify_bindings this l σ w).1 →
  event_owner e ∈ l ∧ event_owner e ≠ this ∧ is_callback e = false.
Proof.
  revert σ w. induction l as [|y l IH]; intros σ w; simpl.
  - by intros ?%elem_of_nil.
  - case_bool_decide as Hy; [by intros ?%elem_of_nil|].
    destruct (σ !! y) as [b|]; [|by intros ?%elem_of_nil].
    rewrite offer_eq.
    specialize (IH (<[y:=with_value (offered_value b w) b]> σ) (passed_on b w)).
    destruct (notify_bindings this l _ _) as [t' r]. cbn [fst snd] in *.
    intros [He|He]%elem_of_app.
    + apply offer_calls_owner in He as [-> ?]. split_and!; [by left|done|done].
    + destruct (IH He) as (?&?&?). split_and!; [by right|done|done].
Qed.

(** With every bound object alive and [this] not bound to itself, the
    loop returns; objects outside the set are untouched, and each bound
    object is offered what the objects visited before it passed on. *)
Lemma notify_bindings_returns this (l : list addr) σ w :
  NoDup l → this ∉ l → (∀ x, x ∈ l → is_Some (σ !! x)) →
  ∃ tr σ',
    notify_bindings this l σ w = (tr, Some (σ', passed_along σ l w))
    ∧ (∀ x, x ∉ l → σ' !! x = σ !! x)
    ∧ (∀ l1 x l2 b, l = l1 ++ x :: l2 → σ !! x = Some b →
         σ' !! x = Some (with_value (offered_value b (passed_along σ l1 w)) b)
         ∧ EvNeq x (m_value b) (passed_along σ l1 w) ∈ tr).
Proof.
  revert σ w. induction l as [|y l IH]; intros σ w Hnd Hthis Hlive.
  - exists [], σ. split_and!; [done|done|].
    intros [|??] ???; discriminate.
  - apply NoDup_cons in Hnd as [Hy Hnd].
    apply not_elem_of_cons in Hthis as [Hne Hthis].
    destruct (Hlive y) as [b Hb]; [by left|].
    set (σ1 := <[y:=with_value (offered_value b w) b]> σ).
    assert (Hsame : ∀ x, x ≠ y → σ1 !! x = σ !! x).
    { intros x Hx. unfold σ1. by rewrite lookup_insert_ne. }
    destruct (IH σ1 (passed_on b w) Hnd Hthis) as (tr & σ' & Hrun & Hframe & Hvisit).
    { intros x Hx. rewrite Hsame; [apply Hlive; by right|]. by intros ->. }
    exists (offer_calls y b w ++ tr), σ'. split_and!.
    + cbn [notify_bindings]. rewrite bool_decide_eq_false_2 by done.
      rewrite Hb, offer_eq. fold σ1. rewrite Hrun.
      rewrite (passed_along_cons _ _ _ _ _ Hb).
      rewrite (passed_along_ext σ1 σ); [done|].
      intros x Hx. apply Hsame. by intros ->.
    + intros x [Hxy Hx]%not_elem_of_cons. rewrite Hframe by done. by apply Hsame.
    + intros l1 x l2 bx Hl Hx. destruct l1 as [|z l1]; cbn [app] in Hl; simplify_eq.
      * split.
        -- rewrite Hframe by done. unfold σ1. by rewrite lookup_insert_eq.
        -- apply elem_of_app. left. unfold offer_calls. by left.
      * assert (x ≠ z) as Hxz.
        { intros ->. apply Hy. apply elem_of_app. right. by left. }
        destruct (Hvisit l1 x l2 bx eq_refl) as [Hx' Hev].
        { by rewrite Hsame. }
        rewrite (passed_along_cons _ _ _ _ _ Hb).
        assert (passed_along σ1 l1 (passed_on b w)
                = passed_along σ l1 (passed_on b w)) as Hpass.
        { apply passed_along_ext. intros u Hu. apply Hsame. intros ->.
          apply Hy. apply elem_of_app. by left. }
        rewrite Hpass in Hx', Hev.
        split; [done|]. apply elem_of_app. by right.
Qed.

(** When the loop returns, [this] was not among the bound objects and
    each of them was alive. *)
Lemma notify_bindings_returned this (l : list addr) σ w tr σ' w' :
  notify_bindings this l σ w = (tr, Some (σ', w')) →
  (this ∉ l) ∧ ∀ x, x ∈ l → is_Some (σ !! x).
Proof.
  revert σ w tr. induction l as [|y l IH]; intros σ w tr; simpl.
  - intros _. split; [by intros ?%elem_of_nil|by intros ? ?%elem_of_nil].
  - case_bool_decide as Hy; [done|].
    destruct (σ !! y) as [b|] eqn:Hb; [|done].
    rewrite offer_eq.
    destruct (notify_bindings this l _ _) as [t' r] eqn:Hrun.
    intros [= <- ->]. apply IH in Hrun as [Hthis Hlive]. split.
    + apply not_elem_of_cons. by split; [intros ->|].
    + intros x [->|Hx]%elem_of_cons; [by rewrite Hb|].
      destruct (Hlive x Hx) as [bx Hbx].
      destruct (decide (x = y)) as [->|Hne]; [by rewrite Hb|].
      rewrite lookup_insert_ne in Hbx by done. by rewrite Hbx.
Qed.

(** *** The three outcomes of a write *)

Lemma operator_assign_skip this p σ v :
  σ !! this = Some p → m_value p = v →
  operator_assign this v σ = ([EvNeq this v v], Some (σ, v)).
Proof.
  intros Hp Hv. unfold operator_assign. rewrite Hp.
  rewrite bool_decide_eq_false_2; [by rewrite Hv|]. by intros [].
Qed.

Lemma operator_assign_reject this p σ v :
  σ !! this = Some p → m_value p ≠ v →
  verdict (m_validator p) (coerced (m_coerceCallback p) v) = false →
  operator_assign this v σ =
    (EvNeq this (m_value p) v
       :: coerce_calls this (m_coerceCallback p) v
       ++ validate_calls this (m_validator p) (coerced (m_coerceCallback p) v),
     Some (σ, commit_value p v)).
Proof.
  intros Hp Hv Hrej. unfold operator_assign. rewrite Hp.
  rewrite bool_decide_eq_true_2 by done.
  by rewrite coerce_eq, validate_eq, Hrej.
Qed.

Lemma operator_assign_commit this p σ v :
  σ !! this = Some p → commits p v →
  let cbr := notify_callbacks this (map_iter (m_callbacks p))
               (m_value p) (commit_value p v) in
  let br := notify_bindings this (set_iter (m_bindings p))
              (<[this := with_value (commit_value p v) p]> σ)
              (after_callbacks (map_iter (m_callbacks p))
                 (m_value p) (commit_value p v)).2 in
  operator_assign this v σ =
    (EvNeq this (m_value p) v
       :: coerce_calls this (m_coerceCallback p) v
       ++ validate_calls this (m_validator p) (coerced (m_coerceCallback p) v)
       ++ cbr.2 ++ br.1,
     br.2).
Proof.
  intros Hp [Hv Hok] cbr br. unfold operator_assign. rewrite Hp.
  rewrite bool_decide_eq_true_2 by done.
  rewrite coerce_eq, validate_eq, Hok.
  unfold NotifyCallbacks, NotifyBindings. fold (commit_value p v).
  subst br. rewrite <- (notify_callbacks_values this). subst cbr.
  destruct (notify_callbacks this _ _ _) as [[o3 n3] t3]. cbn [fst snd].
  by destruct (notify_bindings this _ _ _) as [t4 r].
Qed.

(** A committed write that can return does return; this lemma lists what
    it then did. *)
Lemma committed_write this p σ v :
  σ !! this = Some p → commits p v →
  this ∉ m_bindings p → (∀ x, x ∈ m_bindings p → is_Some (σ !! x)) →
  let cbs := map_iter (m_callbacks p) in
  let l := set_iter (m_bindings p) in
  let nv3 := (after_callbacks cbs (m_value p) (commit_value p v)).2 in
  ∃ tr σ',
    operator_assign this v σ = (tr, Some (σ', passed_along σ l nv3))
    ∧ σ' !! this = Some (with_value (commit_value p v) p)
    ∧ (∀ x, x ≠ this → x ∉ m_bindings p → σ' !! x = σ !! x)
    ∧ (∀ l1 x l2 b, l = l1 ++ x :: l2 → σ !! x = Some b →
         σ' !! x = Some (with_value (offered_value b (passed_along σ l1 nv3)) b)
         ∧ EvNeq x (m_value b) (passed_along σ l1 nv3) ∈ tr)
    ∧ (∀ k1 id ty f k2, cbs = k1 ++ (id, Target ty f) :: k2 →
         EvCallback this id
           (after_callbacks k1 (m_value p) (commit_value p v)).1
           (after_callbacks k1 (m_value p) (commit_value p v)).2 ∈ tr)
    ∧ (∀ id, length (filter (λ e, is_call_of this id e = true) tr)
             = match m_callbacks p !! id with
               | Some (Target _ _) => 1
               | _ => 0
               end)
    ∧ (∀ e, e ∈ tr → is_callback e = true → event_owner e = this)
    ∧ (∀ e, e ∈ tr → event_owner e = this ∨ event_owner e ∈ m_bindings p).
Proof.
  intros Hp Hc Hself Hlive cbs l nv3.
  set (σ1 := <[this := with_value (commit_value p v) p]> σ).
  assert (Hsame : ∀ x, x ≠ this → σ1 !! x = σ !! x).
  { intros x Hx. unfold σ1. by rewrite lookup_insert_ne. }
  assert (Hl : ∀ x, x ∈ l → x ≠ this).
  { intros x Hx%set_iter_elem_of ->. done. }
  destruct (notify_bindings_returns this l σ1 nv3)
    as (t4 & σ' & Hrun & Hframe & Hvisit).
  { apply set_iter_NoDup. }
  { unfold l. by rewrite set_iter_elem_of. }
  { intros x Hx. rewrite Hsame by auto. by apply Hlive, set_iter_elem_of. }
  assert (Hpass : ∀ k, k ⊆ l → passed_along σ1 k nv3 = passed_along σ k nv3).
  { intros k Hk. apply passed_along_ext. intros x Hx. apply Hsame; auto. }
  pose proof (operator_assign_commit this p σ v Hp Hc) as Hrun'.
  cbv zeta in Hrun'. fold cbs l nv3 σ1 in Hrun'. rewrite Hrun in Hrun'.
  cbn [fst snd] in Hrun'. rewrite Hpass in Hrun' by done.
  eexists _, σ'. split; [exact Hrun'|]. split_and!.
  - rewrite Hframe; [unfold σ1; by rewrite lookup_insert_eq|].
    intros Hin. by apply (Hl this).
  - intros x Hx Hnb. rewrite Hframe, Hsame; [done|done|].
    unfold l. by rewrite set_iter_elem_of.
  - intros l1 x l2 b Hdec Hb.
    assert (x ∈ l) as Hx by (rewrite Hdec, elem_of_app; right; by left).
    destruct (Hvisit l1 x l2 b Hdec) as [Hx' Hev]; [by rewrite Hsame; auto|].
    assert (l1 ⊆ l) as Hl1 by (intros u Hu; rewrite Hdec, elem_of_app; by left).
    rewrite Hpass in Hx', Hev by done.
    split; [done|]. right. rewrite !elem_of_app. auto.
  - intros k1 id ty f k2 Hdec. right. rewrite !elem_of_app. right. right. left.
    rewrite Hdec. apply notify_callbacks_call.
  - intros id. rewrite filter_cons_False by (by intros []%is_call_of_callback).
    rewrite !filter_app, !length_app.
    rewrite (no_calls_among _ _ (coerce_calls _ _ _))
      by (intros e He; by apply coerce_calls_owner in He as [_ ?]).
    rewrite (no_calls_among _ _ (validate_calls _ _ _))
      by (intros e He; by apply validate_calls_owner in He as [_ ?]).
    rewrite (no_calls_among _ _ t4).
    + rewrite notify_callbacks_count by apply map_iter_NoDup_fst.
      unfold cbs. rewrite map_iter_to_map. simpl. lia.
    + intros e He. pose proof (notify_bindings_calls this l σ1 nv3 e) as Hc4.
      rewrite Hrun in Hc4. by destruct (Hc4 He) as (_ & _ & ?).
  - intros e [->|He]%elem_of_cons Hcb; [done|].
    rewrite !elem_of_app in He. destruct He as [He|[He|[He|He]]].
    + by apply coerce_calls_owner in He as [? ?].
    + by apply validate_calls_owner in He as [? ?].
    + by apply notify_callbacks_calls in He as (?&?&?&?&?&->&?).
    + pose proof (notify_bindings_calls this l σ1 nv3 e) as Hc4.
      rewrite Hrun in Hc4. destruct (Hc4 He) as (_ & _ & ?). congruence.
  - intros e [->|He]%elem_of_cons; [by left|].
    rewrite !elem_of_app in He. destruct He as [He|[He|[He|He]]].
    + left. by apply coerce_calls_owner in He as [? ?].
    + left. by apply validate_calls_owner in He as [? ?].
    + left. by apply notify_callbacks_calls in He as (?&?&?&?&?&->&?).
    + pose proof (notify_bindings_calls this l σ1 nv3 e) as Hc4.
      rewrite Hrun in Hc4. destruct (Hc4 He) as (Hin & _ & _).
      right. by apply set_iter_elem_of.
Qed.

(** *** Writes *)

(** C1. A write whose coerced candidate the validator rejects returns
    normally and changes nothing: the store is the store before, so the
    object and every bound object read as before, and no listener is
    called. *)
Theorem rejected_write_is_silent this p σ v (f : T → bool * T) :
  σ !! this = Some p →
  m_validator p = Some f →
  (f (coerced (m_coerceCallback p) v)).1 = false →
  ∃ tr σ' v',
    operator_assign this v σ = (tr, Some (σ', v'))
    ∧ σ' = σ
    ∧ read this σ' = Some (m_value p)
    ∧ (∀ x, x ∈ m_bindings p → read x σ' = read x σ)
    ∧ (∀ e, e ∈ tr → is_callback e = false).
Proof.
  intros Hp Hf Hrej.
  assert (read this σ = Some (m_value p)) as Hread by (unfold read; by rewrite Hp).
  destruct (decide (m_value p = v)) as [Hv|Hv].
  - eexists _, σ, _. split_and!; [|done|done|done|].
    + apply (operator_assign_skip this p σ v Hp Hv).
    + by intros e ->%list_elem_of_singleton.
  - eexists _, σ, _. split_and!; [|done|done|done|].
    + apply (operator_assign_reject this p σ v Hp Hv). by rewrite Hf.
    + intros e [->|He]%elem_of_cons; [done|].
      apply elem_of_app in He as [He|He].
      * by apply coerce_calls_owner in He as [_ ?].
      * by apply validate_calls_owner in He as [_ ?].
Qed.


(** C3. A write of a value equal to the current one evaluates the
    comparison and nothing else: no coercer, validator or listener call,
    nothing offered to a bound object, the store and the caller's variable
    as before; whatever the coercer would have made of the value. *)
Theorem equal_write_does_nothing this p σ v :
  σ !! this = Some p →
  m_value p = v →
  operator_assign this v σ = ([EvNeq this (m_value p) v], Some (σ, v)).
Proof.
  intros Hp Hv. rewrite (operator_assign_skip this p σ v Hp Hv). by rewrite Hv.
Qed.

(** *** Bindings *)

Lemma set_iter_singleton (y : addr) : set_iter {[y]} = [y].
Proof.
  apply Permutation_singleton_r. rewrite set_iter_perm.
  by rewrite elements_singleton.
Qed.

Lemma passed_along_fixed σ (l : list addr) w :
  (∀ y b, y ∈ l → σ !! y = Some b → passed_on b w = w) →
  passed_along σ l w = w.
Proof.
  unfold passed_along. induction l as [|y l IH]; intros Hfix; [done|]. simpl.
  destruct (σ !! y) as [b|] eqn:Hy.
  - rewrite (Hfix y b) by (done || by left).
    apply IH. intros z bz Hz. apply Hfix. by right.
  - apply IH. intros z bz Hz. apply Hfix. by right.
Qed.

Lemma passed_along_coerced σ (l : list addr) w :
  (∀ y b, y ∈ l → σ !! y = Some b → validator_keeps (m_validator b)) →
  passed_along σ l w = coerced_along σ l w.
Proof.
  unfold passed_along, coerced_along. revert w.
  induction l as [|y l IH]; intros w Hkeep; [done|]. simpl.
  assert (∀ z bz, z ∈ l → σ !! z = Some bz → validator_keeps (m_validator bz))
    as Hrest by (intros z bz Hz; apply Hkeep; by right).
  destruct (σ !! y) as [b|] eqn:Hy; [|by apply IH].
  unfold passed_on. rewrite (Hkeep y b) by (done || by left). by apply IH.
Qed.

Lemma after_callbacks_keep (l : list (CallbackID * ChangeCallback T)) o n :
  listeners_keep l → (after_callbacks l o n).2 = n.
Proof.
  revert o n. induction l as [|[id [|ty f]] l IH]; intros o n Hkeep; simpl; [done| |].
  - apply IH. intros i t g Hin. apply (Hkeep i t g). by right.
  - pose proof (Hkeep id ty f (ltac:(by left)) o n) as Hn.
    destruct (f o n) as [o1 n1]. simpl in Hn. subst n1.
    apply IH. intros i t g Hin. apply (Hkeep i t g). by right.
Qed.

(** The shared variable still holds the committed value when it reaches a
    bound object, if the listeners kept it and the objects visited before
    passed it on unchanged. *)
Lemma left_unchanged σ (cbs : list (CallbackID * ChangeCallback T))
    (l1 : list addr) o w :
  listeners_keep cbs →
  (∀ y b, y ∈ l1 → σ !! y = Some b → passed_on b w = w) →
  passed_along σ l1 (after_callbacks cbs o w).2 = w.
Proof.
  intros Hkeep Hfix. rewrite after_callbacks_keep by done.
  by apply passed_along_fixed.
Qed.

Lemma offered_value_accepted b w :
  m_value b ≠ w →
  verdict (m_validator b) (coerced (m_coerceCallback b) w) = true →
  offered_value b w = validated (m_validator b) (coerced (m_coerceCallback b) w).
Proof.
  intros Hne Hok. unfold offered_value.
  rewrite bool_decide_eq_true_2 by done. by rewrite Hok.
Qed.

(** A committed write to [x], one of whose bound objects is [y]. *)
Lemma bound_write (x y : addr) (px py : Property T) σ v :
  σ !! x = Some px → σ !! y = Some py →
  y ∈ m_bindings px → x ∉ m_bindings px →
  (∀ z, z ∈ m_bindings px → is_Some (σ !! z)) →
  commits px v →
  ∃ tr σ' v' w l1 l2,
    operator_assign x v σ = (tr, Some (σ', v'))
    ∧ set_iter (m_bindings px) = l1 ++ y :: l2
    ∧ w = passed_along σ l1
            (after_callbacks (map_iter (m_callbacks px))
               (m_value px) (commit_value px v)).2
    ∧ EvNeq y (m_value py) w ∈ tr
    ∧ σ' !! y = Some (with_value (offered_value py w) py)
    ∧ σ' !! x = Some (with_value (commit_value px v) px)
    ∧ (∀ z, z ≠ x → z ∉ m_bindings px → σ' !! z = σ !! z)
    ∧ (∀ id, length (filter (λ e, is_call_of x id e = true) tr)
             = match m_callbacks px !! id with
               | Some (Target _ _) => 1
               | _ => 0
               end)
    ∧ (∀ e, e ∈ tr → is_callback e = true → event_owner e = x)
    ∧ (∀ e, e ∈ tr → event_owner e = x ∨ event_owner e ∈ m_bindings px).
Proof.
  intros Hx Hy Hbound Hself Hlive Hc.
  destruct (committed_write x px σ v Hx Hc Hself Hlive)
    as (tr & σ' & Hrun & Hx' & Hframe & Hvisit & _ & Hcount & Hcb & Hown).
  apply set_iter_elem_of, list_elem_of_split in Hbound as (l1 & l2 & Hl).
  destruct (Hvisit l1 y l2 py Hl Hy) as [Hy' Hev].
  eexists tr, σ', _, _, l1, l2. split_and!; try done.
Qed.

(** C4, as the code has it.  With [a] bound to [b] and [b] bound to [c]
    ([c] neither [a] nor bound to [a]), a committed write to [a] returns;
    [b] is offered the content [w] of the shared variable, which is the value
    committed to [a] as [a]'s listeners and the objects visited before [b]
    left it, and [b] then reads what its own comparison, coercer and
    validator make of [w]: the coerced [w] when [b]'s value differs from [w]
    and its validator accepts, its old value otherwise.  [w] is the committed
    value itself when the listeners keep [newValue] and the objects visited
    before pass it on unchanged.  [c] is exactly as before; the only
    listeners called are [a]'s, and every call made is on [a] or on an
    object bound to [a], so none on [c] and none through [b]'s bindings;
    objects other than [a] and those bound to [a] are untouched. *)
Theorem propagation_is_one_hop (a b c : addr) (pa pb pc : Property T) σ v :
  σ !! a = Some pa → σ !! b = Some pb → σ !! c = Some pc →
  a ≠ c →
  b ∈ m_bindings pa → c ∈ m_bindings pb → c ∉ m_bindings pa →
  a ∉ m_bindings pa →
  (∀ x, x ∈ m_bindings pa → is_Some (σ !! x)) →
  commits pa v →
  ∃ tr σ' v' w l1 l2,
    operator_assign a v σ = (tr, Some (σ', v'))
    ∧ set_iter (m_bindings pa) = l1 ++ b :: l2
    ∧ w = passed_along σ l1
            (after_callbacks (map_iter (m_callbacks pa))
               (m_value pa) (commit_value pa v)).2
    ∧ EvNeq b (m_value pb) w ∈ tr
    ∧ σ' !! b = Some (with_value (offered_value pb w) pb)
    ∧ read b σ' = Some (offered_value pb w)
    ∧ (m_value pb ≠ w →
       verdict (m_validator pb) (coerced (m_coerceCallback pb) w) = true →
       read b σ' = Some (validated (m_validator pb) (coerced (m_coerceCallback pb) w)))
    ∧ (m_value pb = w
       ∨ verdict (m_validator pb) (coerced (m_coerceCallback pb) w) = false →
       read b σ' = Some (m_value pb))
    ∧ (listeners_keep (map_iter (m_callbacks pa)) →
       (∀ y by', y ∈ l1 → σ !! y = Some by' →
          passed_on by' (commit_value pa v) = commit_value pa v) →
       w = commit_value pa v)
    ∧ read a σ' = Some (commit_value pa v)
    ∧ σ' !! c = Some pc
    ∧ read c σ' = Some (m_value pc)
    ∧ (∀ e, e ∈ tr → is_callback e = true → event_owner e = a)
    ∧ (∀ e, e ∈ tr → event_owner e = a ∨ event_owner e ∈ m_bindings pa)
    ∧ (∀ e, e ∈ tr → event_owner e ≠ c)
    ∧ (∀ x, x ≠ a → x ∉ m_bindings pa → σ' !! x = σ !! x).
Proof.
  intros Ha Hb Hc Hac Hab Hbc Hnac Hself Hlive Hcommit.
  destruct (bound_write a b pa pb σ v Ha Hb Hab Hself Hlive Hcommit)
    as (tr & σ' & v' & w & l1 & l2 & Hrun & Hl & Hw & Hev & Hb' & Ha'
        & Hframe & _ & Hcb & Hown).
  assert (σ' !! c = Some pc) as Hc' by (rewrite Hframe; auto).
  assert (read b σ' = Some (offered_value pb w)) as Hread
    by (unfold read; by rewrite Hb').
  exists tr, σ', v', w, l1, l2. split_and!; try done.
  - intros Hne Hok. by rewrite Hread, offered_value_accepted.
  - intros Hsame. rewrite Hread. f_equal. unfold offered_value.
    case_bool_decide as Hne; [|done].
    destruct Hsame as [Heq|Hrej]; [done|]. by rewrite Hrej.
  - intros Hkeep Hfix. rewrite Hw. by apply left_unchanged.
  - unfold read. by rewrite Ha'.
  - unfold read. by rewrite Hc'.
  - intros e He Heq. destruct (Hown e He) as [Hown'|Hown']; congruence.
Qed.

Lemma AddBind_eq (a b : addr) (pa pb : Property T) σ :
  a ≠ b → σ !! a = Some pa → σ !! b = Some pb →
  AddBind a b σ =
    Some (<[b := with_bindings ({[a]} ∪ m_bindings pb) pb]>
            (<[a := with_bindings ({[b]} ∪ m_bindings pa) pa]> σ)).
Proof.
  intros Hab Ha Hb. unfold AddBind, AddOneWayToSourceBind, AddOneWayBind.
  rewrite Ha. simpl. rewrite lookup_insert_ne by done. by rewrite Hb.
Qed.

(** C5, as the code has it.  After [AddBind(a, b)], a committed write to
    [a] offers [b] the content [w] of the shared variable, which is the
    value committed to [a] as [a]'s listeners and the objects of [a]
    visited before [b] left it (the committed value itself when they left
    it unchanged), and [b] then reads what its own comparison, coercer and
    validator make of [w]: the coerced [w] when [b]'s value differs from
    [w] and its validator accepts, its old value otherwise.  The write
    calls each of [a]'s listeners once and none of [b]'s.  The same holds
    with [a] and [b] exchanged. *)
Theorem two_way_bind (a b : addr) (pa pb : Property T) σ σ1 v :
  a ≠ b →
  σ !! a = Some pa → σ !! b = Some pb →
  a ∉ m_bindings pa → b ∉ m_bindings pb →
  (∀ x, x ∈ m_bindings pa → is_Some (σ !! x)) →
  (∀ x, x ∈ m_bindings pb → is_Some (σ !! x)) →
  AddBind a b σ = Some σ1 →
  (commits pa v →
   ∃ tr σ' v' w l1 l2,
     operator_assign a v σ1 = (tr, Some (σ', v'))
     ∧ set_iter ({[b]} ∪ m_bindings pa) = l1 ++ b :: l2
     ∧ w = passed_along σ1 l1
             (after_callbacks (map_iter (m_callbacks pa))
                (m_value pa) (commit_value pa v)).2
     ∧ EvNeq b (m_value pb) w ∈ tr
     ∧ read b σ' = Some (offered_value pb w)
     ∧ (m_value pb ≠ w →
        verdict (m_validator pb) (coerced (m_coerceCallback pb) w) = true →
        read b σ' = Some (validated (m_validator pb) (coerced (m_coerceCallback pb) w)))
     ∧ (m_value pb = w
        ∨ verdict (m_validator pb) (coerced (m_coerceCallback pb) w) = false →
        read b σ' = Some (m_value pb))
     ∧ (listeners_keep (map_iter (m_callbacks pa)) →
        (∀ y by', y ∈ l1 → σ1 !! y = Some by' →
           passed_on by' (commit_value pa v) = commit_value pa v) →
        w = commit_value pa v)
     ∧ read a σ' = Some (commit_value pa v)
     ∧ (∀ id ty f, m_callbacks pa !! id = Some (Target ty f) →
          length (filter (λ e, is_call_of a id e = true) tr) = 1)
     ∧ (∀ e, e ∈ tr → is_callback_of b e = false))
  ∧ (commits pb v →
     ∃ tr σ' v' w l1 l2,
       operator_assign b v σ1 = (tr, Some (σ', v'))
       ∧ set_iter ({[a]} ∪ m_bindings pb) = l1 ++ a :: l2
       ∧ w = passed_along σ1 l1
               (after_callbacks (map_iter (m_callbacks pb))
                  (m_value pb) (commit_value pb v)).2
       ∧ EvNeq a (m_value pa) w ∈ tr
       ∧ read a σ' = Some (offered_value pa w)
       ∧ (m_value pa ≠ w →
          verdict (m_validator pa) (coerced (m_coerceCallback pa) w) = true →
          read a σ' = Some (validated (m_validator pa) (coerced (m_coerceCallback pa) w)))
       ∧ (m_value pa = w
          ∨ verdict (m_validator pa) (coerced (m_coerceCallback pa) w) = false →
          read a σ' = Some (m_value pa))
       ∧ (listeners_keep (map_iter (m_callbacks pb)) →
          (∀ y by', y ∈ l1 → σ1 !! y = Some by' →
             passed_on by' (commit_value pb v) = commit_value pb v) →
          w = commit_value pb v)
       ∧ read b σ' = Some (commit_value pb v)
       ∧ (∀ id ty f, m_callbacks pb !! id = Some (Target ty f) →
            length (filter (λ e, is_call_of b id e = true) tr) = 1)
       ∧ (∀ e, e ∈ tr → is_callback_of a e = false)).
Proof.
  intros Hab Ha Hb Hsa Hsb Hla Hlb Hbind.
  rewrite (AddBind_eq a b pa pb σ Hab Ha Hb) in Hbind. injection Hbind as <-.
  set (pa' := with_bindings ({[b]} ∪ m_bindings pa) pa).
  set (pb' := with_bindings ({[a]} ∪ m_bindings pb) pb).
  set (σ1 := <[b:=pb']> (<[a:=pa']> σ)).
  assert (Ha1 : σ1 !! a = Some pa').
  { unfold σ1. rewrite lookup_insert_ne by done. by rewrite lookup_insert_eq. }
  assert (Hb1 : σ1 !! b = Some pb').
  { unfold σ1. by rewrite lookup_insert_eq. }
  assert (Hlive1 : ∀ x, is_Some (σ !! x) → is_Some (σ1 !! x)).
  { intros x Hx. unfold σ1.
    destruct (decide (x = b)) as [->|?]; [by rewrite lookup_insert_eq|].
    rewrite lookup_insert_ne by done.
    destruct (decide (x = a)) as [->|?]; [by rewrite lookup_insert_eq|].
    by rewrite lookup_insert_ne. }
  assert (Hnot : ∀ (x : addr) (tr : list (event T)),
                   (∀ e, e ∈ tr → is_callback e = true → event_owner e = x) →
                   ∀ (y : addr) e, y ≠ x → e ∈ tr → is_callback_of y e = false).
  { intros x tr Hcb y e Hyx He. destruct e; try done. simpl.
    apply bool_decide_eq_false_2. intros ->.
    by specialize (Hcb _ He eq_refl). }
  assert (Hpipe : ∀ (q : Property T) (x : addr) σ' w,
            read x σ' = Some (offered_value q w) →
            (m_value q ≠ w →
             verdict (m_validator q) (coerced (m_coerceCallback q) w) = true →
             read x σ' = Some (validated (m_validator q) (coerced (m_coerceCallback q) w)))
            ∧ (m_value q = w
               ∨ verdict (m_validator q) (coerced (m_coerceCallback q) w) = false →
               read x σ' = Some (m_value q))).
  { intros q x σ' w Hread. split.
    - intros Hne Hok. by rewrite Hread, offered_value_accepted.
    - intros Hsame. rewrite Hread. f_equal. unfold offered_value.
      case_bool_decide as Hne; [|done].
      destruct Hsame as [Heq|Hrej]; [done|]. by rewrite Hrej. }
  split; intros Hc.
  - destruct (bound_write a b pa' pb' σ1 v Ha1 Hb1)
      as (tr & σ' & v' & w & l1 & l2 & Hrun & Hl & Hw & Hev & Hb' & Ha'
          & _ & Hcount & Hcb & _); [| | |done|].
    { simpl. apply elem_of_union. left. by apply elem_of_singleton. }
    { simpl. rewrite not_elem_of_union, not_elem_of_singleton. done. }
    { intros x Hx. simpl in Hx.
      apply elem_of_union in Hx as [->%elem_of_singleton|Hx]; [by rewrite Hb1|].
      by apply Hlive1, Hla. }
    assert (read b σ' = Some (offered_value pb w)) as Hread
      by (unfold read; by rewrite Hb').
    destruct (Hpipe pb b σ' w Hread) as [Hacc Hold].
    exists tr, σ', v', w, l1, l2. split_and!; try done.
    + intros Hkeep Hfix. rewrite Hw. by apply left_unchanged.
    + unfold read. by rewrite Ha'.
    + intros id ty f Hid. rewrite Hcount. simpl. by rewrite Hid.
    + intros e He. by apply (Hnot a tr Hcb b e).
  - destruct (bound_write b a pb' pa' σ1 v Hb1 Ha1)
      as (tr & σ' & v' & w & l1 & l2 & Hrun & Hl & Hw & Hev & Ha' & Hb'
          & _ & Hcount & Hcb & _); [| | |done|].
    { simpl. apply elem_of_union. left. by apply elem_of_singleton. }
    { simpl. rewrite not_elem_of_union, not_elem_of_singleton. done. }
    { intros x Hx. simpl in Hx.
      apply elem_of_union in Hx as [->%elem_of_singleton|Hx]; [by rewrite Ha1|].
      by apply Hlive1, Hlb. }
    assert (read a σ' = Some (offered_value pa w)) as Hread
      by (unfold read; by rewrite Ha').
    destruct (Hpipe pa a σ' w Hread) as [Hacc Hold].
    exists tr, σ', v', w, l1, l2. split_and!; try done.
    + intros Hkeep Hfix. rewrite Hw. by apply left_unchanged.
    + unfold read. by rewrite Hb'.
    + intros id ty f Hid. rewrite Hcount. simpl. by rewrite Hid.
    + intros e He. by apply (Hnot b tr Hcb a e).
Qed.

(** *** One variable shared by listeners, bound objects and caller *)

(** C6, as the code has it.  The bound objects of a committed write are
    visited in turn over one variable: each is offered the content the
    listeners and the objects visited before it left there, and holds
    afterwards what its own comparison, coercer and validator make of
    that.  It is offered the committed value itself when the listeners
    left the variable alone and every object visited before passed the
    committed value on unchanged. *)
Theorem targets_share_one_variable this p σ v :
  σ !! this = Some p → commits p v →
  this ∉ m_bindings p → (∀ x, x ∈ m_bindings p → is_Some (σ !! x)) →
  ∃ tr σ' v',
    operator_assign this v σ = (tr, Some (σ', v'))
    ∧ ∀ l1 x l2 b,
        set_iter (m_bindings p) = l1 ++ x :: l2 → σ !! x = Some b →
        let w := passed_along σ l1
                   (after_callbacks (map_iter (m_callbacks p))
                      (m_value p) (commit_value p v)).2 in
        EvNeq x (m_value b) w ∈ tr
        ∧ σ' !! x = Some (with_value (offered_value b w) b)
        ∧ (listeners_keep (map_iter (m_callbacks p)) →
           (∀ y by', y ∈ l1 → σ !! y = Some by' →
              passed_on by' (commit_value p v) = commit_value p v) →
           w = commit_value p v).
Proof.
  intros Hp Hc Hself Hlive.
  destruct (committed_write this p σ v Hp Hc Hself Hlive)
    as (tr & σ' & Hrun & _ & _ & Hvisit & _).
  eexists tr, σ', _. split; [exact Hrun|].
  intros l1 x l2 b Hl Hx w. destruct (Hvisit l1 x l2 b Hl Hx) as [Hx' Hev].
  split_and!; [done|done|].
  intros Hkeep Hfix. unfold w. rewrite after_callbacks_keep by done.
  by apply passed_along_fixed.
Qed.

(** C9, as the code has it.  In a committed write the object stores the
    value the validator accepted, whatever the listeners do to
    [newValue] afterwards; each listener receives [oldValue] and
    [newValue] as the listeners called before it left them; each bound
    object is offered [newValue] as the listeners and the bound objects
    visited before it left it, so the first one visited gets what the
    last listener left; and the caller's variable ends with what the last
    bound object left. *)
Theorem listener_mutation_is_shared this p σ v :
  σ !! this = Some p → commits p v →
  this ∉ m_bindings p → (∀ x, x ∈ m_bindings p → is_Some (σ !! x)) →
  let cbs := map_iter (m_callbacks p) in
  let left_by_listeners := (after_callbacks cbs (m_value p) (commit_value p v)).2 in
  ∃ tr σ',
    operator_assign this v σ =
      (tr, Some (σ', passed_along σ (set_iter (m_bindings p)) left_by_listeners))
    ∧ read this σ' = Some (commit_value p v)
    ∧ (∀ k1 id ty f k2, cbs = k1 ++ (id, Target ty f) :: k2 →
         EvCallback this id
           (after_callbacks k1 (m_value p) (commit_value p v)).1
           (after_callbacks k1 (m_value p) (commit_value p v)).2 ∈ tr)
    ∧ (∀ x l2 b, set_iter (m_bindings p) = x :: l2 → σ !! x = Some b →
         EvNeq x (m_value b) left_by_listeners ∈ tr)
    ∧ (∀ l1 x l2 b, set_iter (m_bindings p) = l1 ++ x :: l2 → σ !! x = Some b →
         EvNeq x (m_value b) (passed_along σ l1 left_by_listeners) ∈ tr).
Proof.
  intros Hp Hc Hself Hlive cbs left_by_listeners.
  destruct (committed_write this p σ v Hp Hc Hself Hlive)
    as (tr & σ' & Hrun & Hthis & _ & Hvisit & Hcalls & _).
  exists tr, σ'. split_and!; [done| |done| |].
  - unfold read. by rewrite Hthis.
  - intros x l2 b Hl Hx. by destruct (Hvisit [] x l2 b Hl Hx).
  - intros l1 x l2 b Hl Hx. by destruct (Hvisit l1 x l2 b Hl Hx).
Qed.

(** C10, as the code has it.  When a write returns, the caller's variable
    holds [final_variable]: the value passed when it equals the current
    one; else the result of the object's coercer and validator, and when
    the write commits, then of the listeners and of the coercer and
    validator of each bound object whose value differed when visited.
    When validators and listeners leave [newValue] alone, that is the
    object's coercer followed by the coercers of those bound objects. *)
Theorem caller_variable_after_write this p σ v :
  σ !! this = Some p →
  this ∉ m_bindings p → (∀ x, x ∈ m_bindings p → is_Some (σ !! x)) →
  ∃ tr σ',
    operator_assign this v σ = (tr, Some (σ', final_variable σ p v))
    ∧ (commits p v →
       validator_keeps (m_validator p) →
       listeners_keep (map_iter (m_callbacks p)) →
       (∀ y b, y ∈ m_bindings p → σ !! y = Some b →
          validator_keeps (m_validator b)) →
       final_variable σ p v =
         coerced_along σ (set_iter (m_bindings p))
           (coerced (m_coerceCallback p) v)).
Proof.
  intros Hp Hself Hlive. unfold final_variable.
  case_bool_decide as Hv.
  - destruct (verdict _ _) eqn:Hok.
    + destruct (committed_write this p σ v Hp (conj Hv Hok) Hself Hlive)
        as (tr & σ' & Hrun & _).
      exists tr, σ'. split; [done|]. intros _ Hvk Hlk Hbk.
      rewrite after_callbacks_keep by done.
      unfold commit_value. rewrite Hvk.
      apply passed_along_coerced. intros y b Hy. apply Hbk.
      by apply set_iter_elem_of.
    + eexists _, σ. split.
      * by apply operator_assign_reject.
      * intros [_ Hok']. congruence.
  - eexists _, σ. split.
    + apply (operator_assign_skip this p σ v Hp). by destruct (decide (m_value p = v)).
    + intros [Hv' _]. done.
Qed.

(** *** Identifiers *)

Lemma add_all_ids cbs p :
  (add_all cbs p).1 =
    take (length cbs) (m_availableIDs p)
    ++ fresh_ids (nextCallbackID p) (length cbs - length (m_availableIDs p)).
Proof.
  revert p. induction cbs as [|cb rest IH]; intros p; [done|].
  simpl. destruct (AddChangeCallback cb p) as [id p1] eqn:Hadd.
  specialize (IH p1). destruct (add_all rest p1) as [ids p2]. simpl in *.
  unfold AddChangeCallback in Hadd.
  destruct (m_availableIDs p) as [|x q]; simplify_eq; simpl in *.
  - rewrite Nat.sub_0_r. by rewrite take_nil.
  - done.
Qed.

Lemma fresh_ids_no_wrap (n : N) (k : nat) :
  (n + N.of_nat k ≤ size_t_modulus)%N →
  fresh_ids n k = (λ i, (n + N.of_nat i)%N) <$> seq 0 k.
Proof.
  revert n. induction k as [|k IH]; intros n Hk; [done|].
  simpl. f_equal; [lia|]. destruct k as [|k]; [done|].
  rewrite <- fmap_S_seq, <- list_fmap_compose.
  assert (size_t_incr n = (n + 1)%N) as ->.
  { unfold size_t_incr. apply N.mod_small. lia. }
  rewrite IH by lia. apply list_fmap_ext. intros _ i _. simpl. lia.
Qed.

Lemma remove_all_queue ids p :
  NoDup ids → (∀ id, id ∈ ids → is_Some (m_callbacks p !! id)) →
  m_availableIDs (remove_all ids p) = m_availableIDs p ++ ids
  ∧ nextCallbackID (remove_all ids p) = nextCallbackID p.
Proof.
  unfold remove_all. revert p.
  induction ids as [|id rest IH]; intros p Hnd Hreg; simpl.
  - by rewrite app_nil_r.
  - apply NoDup_cons in Hnd as [Hid Hrest].
    destruct (Hreg id) as [cb Hcb]; [by left|].
    unfold RemoveChangeCallback_id at 2 4. rewrite Hcb.
    destruct (IH (with_registry (delete id (m_callbacks p))
                    (m_availableIDs p ++ [id]) (nextCallbackID p) p))
      as [-> ->]; [done| |].
    + intros x Hx. simpl. rewrite lookup_delete_ne.
      * apply Hreg. by right.
      * intros ->. done.
    + simpl. by rewrite <- app_assoc.
Qed.

(** C7. [AddChangeCallback] hands out the queued ids first, in the order
    in which they were released, and mints from the counter only once the
    queue is empty; from a constructed object the minted ids are 0, 1, 2,
    ...; in particular: add A (id 0), remove id 0, add B (id 0 again), add
    C (id 1). *)
Theorem listener_id_reuse :
  (∀ cbs p,
     (add_all cbs p).1 =
       take (length cbs) (m_availableIDs p)
       ++ fresh_ids (nextCallbackID p) (length cbs - length (m_availableIDs p)))
  ∧ (∀ value vd c cbs,
       (N.of_nat (length cbs) ≤ size_t_modulus)%N →
       (add_all cbs (new_Property value vd c)).1 = N.of_nat <$> seq 0 (length cbs))
  ∧ (∀ p ids cbs cb,
       m_availableIDs p = [] → NoDup ids →
       (∀ id, id ∈ ids → is_Some (m_callbacks p !! id)) →
       length cbs = length ids →
       (add_all (cbs ++ [cb]) (remove_all ids p)).1 = ids ++ [nextCallbackID p])
  ∧ (∀ value vd c A B C,
       let a := AddChangeCallback A (new_Property value vd c) in
       let b := AddChangeCallback B (RemoveChangeCallback_id a.1 a.2) in
       let c := AddChangeCallback C b.2 in
       a.1 = 0%N ∧ b.1 = 0%N ∧ c.1 = 1%N).
Proof.
  split_and!.
  - apply add_all_ids.
  - intros value vd c cbs Hlen. rewrite add_all_ids. simpl.
    rewrite take_nil, Nat.sub_0_r. simpl.
    rewrite fresh_ids_no_wrap by (simpl; lia). done.
  - intros p ids cbs cb Hq Hnd Hreg Hlen. rewrite add_all_ids.
    destruct (remove_all_queue ids p Hnd Hreg) as [-> ->]. rewrite Hq. simpl.
    rewrite length_app, Hlen. simpl.
    rewrite take_ge by lia.
    by replace (length ids + 1 - length ids) with 1 by lia.
  - intros value vd c A B C. simpl. unfold RemoveChangeCallback_id. simpl.
    rewrite lookup_insert_eq. done.
Qed.

(** *** Further properties of the registry *)

Lemma ids_accounted_new value vd c : ids_accounted (new_Property value vd c).
Proof.
  intros id. simpl. rewrite lookup_empty. split.
  - intros [[? ?]|Hin]; [done|]. by apply elem_of_nil in Hin.
  - lia.
Qed.

Lemma ids_accounted_release id p :
  ids_accounted p → is_Some (m_callbacks p !! id) →
  ids_accounted (with_registry (delete id (m_callbacks p))
                   (m_availableIDs p ++ [id]) (nextCallbackID p) p).
Proof.
  intros Hacc Hid x. specialize (Hacc x). simpl.
  rewrite elem_of_app, list_elem_of_singleton.
  destruct (decide (x = id)) as [->|Hne].
  - rewrite lookup_delete_eq. split; [intros _|by auto].
    apply Hacc. by left.
  - rewrite lookup_delete_ne by done. rewrite <- Hacc. tauto.
Qed.

Lemma ids_accounted_step (op : registry_op T) p :
  ids_accounted p → (nextCallbackID p + 1 < size_t_modulus)%N →
  ids_accounted (run_op p op)
  ∧ (nextCallbackID (run_op p op) ≤ nextCallbackID p + 1)%N.
Proof.
  intros Hacc Hsmall. destruct op as [cb|id|cb]; simpl.
  - unfold AddChangeCallback.
    destruct (m_availableIDs p) as [|id rest] eqn:Hq; simpl.
    + assert (size_t_incr (nextCallbackID p) = (nextCallbackID p + 1)%N) as ->.
      { unfold size_t_incr. apply N.mod_small. lia. }
      split; [|lia]. intros x. specialize (Hacc x). rewrite Hq in Hacc. simpl.
      destruct (decide (x = nextCallbackID p)) as [->|Hne].
      * rewrite lookup_insert_eq. split; [lia|by left].
      * rewrite lookup_insert_ne by done. rewrite Hacc. lia.
    + split; [|lia]. intros x. pose proof (Hacc x) as Hx. rewrite Hq in Hx. simpl.
      destruct (decide (x = id)) as [->|Hne].
      * rewrite lookup_insert_eq. split; [intros _|by left].
        apply Hx. right. by left.
      * rewrite lookup_insert_ne by done. rewrite <- Hx.
        rewrite elem_of_cons. split; [tauto|]. intros [?|[?|?]]; tauto.
  - unfold RemoveChangeCallback_id.
    destruct (m_callbacks p !! id) eqn:Hid; [|split; [done|lia]].
    split; [|simpl; lia]. apply ids_accounted_release; eauto.
  - unfold RemoveChangeCallback.
    destruct (List.find _ _) as [[id cb']|] eqn:Hfind; [|split; [done|lia]].
    apply find_some in Hfind as [Hin _].
    apply list_elem_of_In, map_iter_lookup in Hin.
    split; [|simpl; lia]. apply ids_accounted_release; eauto.
Qed.

Lemma ids_accounted_run_ops (ops : list (registry_op T)) p :
  ids_accounted p →
  (nextCallbackID p + N.of_nat (length ops) < size_t_modulus)%N →
  ids_accounted (run_ops ops p)
  ∧ (nextCallbackID (run_ops ops p) ≤ nextCallbackID p + N.of_nat (length ops))%N.
Proof.
  unfold run_ops. revert p.
  induction ops as [|op ops IH]; intros p Hacc Hlen; simpl.
  - split; [done|lia].
  - simpl in Hlen.
    destruct (ids_accounted_step op p Hacc) as [Hacc' Hnext]; [lia|].
    destruct (IH (run_op p op) Hacc') as [Hfin Hle]; [lia|].
    split; [done|lia].
Qed.

(** X1. Identifier accounting.  On an object reached from a constructed one
    by fewer than 2^64 registry calls, the identifiers in use, registered
    or queued, are exactly those below the counter: none is lost and none
    is invented. *)
Theorem ids_are_accounted value vd c (ops : list (registry_op T)) :
  (N.of_nat (length ops) < size_t_modulus)%N →
  let p := run_ops ops (new_Property value vd c) in
  ids_accounted p
  ∧ (nextCallbackID p ≤ N.of_nat (length ops))%N.
Proof.
  intros Hlen p.
  destruct (ids_accounted_run_ops ops (new_Property value vd c)
              (ids_accounted_new value vd c)) as [Hacc Hle]; simpl; [lia|].
  split; [done|]. simpl in Hle. unfold p. lia.
Qed.

Lemma add_returns_unused cb p :
  registry_inv p → ids_accounted p →
  m_callbacks p !! (AddChangeCallback cb p).1 = None.
Proof.
  intros [_ Hfree] Hacc. unfold AddChangeCallback.
  destruct (m_availableIDs p) as [|id rest] eqn:Hq; simpl.
  - destruct (m_callbacks p !! nextCallbackID p) eqn:Hnext; [|done].
    assert (nextCallbackID p < nextCallbackID p)%N; [|lia].
    apply Hacc. left. by rewrite Hnext.
  - apply Hfree. rewrite ?Hq. by left.
Qed.

(** X2. [AddChangeCallback] never takes over an identifier in use: on an
    object reached from a constructed one by fewer than 2^64 registry
    calls, the identifier returned was not registered, the new callback is
    stored under it, and every other registration is as before, so there
    is one listener more. *)
Theorem add_uses_a_free_id value vd c (ops : list (registry_op T)) cb :
  (N.of_nat (length ops) < size_t_modulus)%N →
  let p := run_ops ops (new_Property value vd c) in
  let r := AddChangeCallback cb p in
  m_callbacks p !! r.1 = None
  ∧ m_callbacks r.2 !! r.1 = Some cb
  ∧ (∀ id, id ≠ r.1 → m_callbacks r.2 !! id = m_callbacks p !! id)
  ∧ size (m_callbacks r.2) = S (size (m_callbacks p)).
Proof.
  intros Hlen p r.
  assert (m_callbacks p !! r.1 = None) as Hfree.
  { apply add_returns_unused.
    - apply registry_inv_run_ops, registry_inv_new.
    - apply ids_accounted_run_ops; [apply ids_accounted_new|simpl; lia]. }
  assert (m_callbacks r.2 = <[r.1 := cb]> (m_callbacks p)) as ->.
  { unfold r, AddChangeCallback. by destruct (m_availableIDs p). }
  split_and!; [done|apply lookup_insert_eq| |by apply map_size_insert_None].
  intros id Hid. by rewrite lookup_insert_ne.
Qed.

(** X3. Add then remove.  On such an object, removing the identifier that
    [AddChangeCallback] just returned gives back the listener map as it
    was, and leaves that identifier at the back of the queue. *)
Theorem add_then_remove value vd c (ops : list (registry_op T)) cb :
  (N.of_nat (length ops) < size_t_modulus)%N →
  let p := run_ops ops (new_Property value vd c) in
  let r := AddChangeCallback cb p in
  let q := RemoveChangeCallback_id r.1 r.2 in
  m_callbacks q = m_callbacks p
  ∧ m_availableIDs q = tail (m_availableIDs p) ++ [r.1]
  ∧ last (m_availableIDs q) = Some r.1.
Proof.
  intros Hlen p r q.
  assert (m_callbacks p !! r.1 = None) as Hfree.
  { apply add_returns_unused.
    - apply registry_inv_run_ops, registry_inv_new.
    - apply ids_accounted_run_ops; [apply ids_accounted_new|simpl; lia]. }
  assert (m_callbacks r.2 = <[r.1 := cb]> (m_callbacks p)
          ∧ m_availableIDs r.2 = tail (m_availableIDs p)) as [Hm Hq].
  { unfold r, AddChangeCallback. by destruct (m_availableIDs p). }
  unfold q, RemoveChangeCallback_id. rewrite Hm, lookup_insert_eq. simpl.
  rewrite Hq, delete_insert_eq, last_snoc.
  split_and!; [|done|done]. by apply delete_id.
Qed.

Lemma same_target_iff (callback stored : ChangeCallback T) :
  same_target callback stored = true ↔ target_type callback = target_type stored.
Proof.
  unfold same_target, target_fn.
  rewrite andb_true_iff, !bool_decide_eq_true. tauto.
Qed.

Lemma remove_by_callback_found (callback : ChangeCallback T) p id cb :
  m_callbacks p !! id = Some cb →
  target_type cb = target_type callback →
  ∃ id' cb',
    m_callbacks p !! id' = Some cb'
    ∧ target_type cb' = target_type callback
    ∧ RemoveChangeCallback callback p =
        with_registry (delete id' (m_callbacks p))
          (m_availableIDs p ++ [id']) (nextCallbackID p) p.
Proof.
  intros Hid Hty. unfold RemoveChangeCallback.
  destruct (List.find _ _) as [[id' cb']|] eqn:Hfind.
  - apply find_some in Hfind as [Hin Hsame].
    apply list_elem_of_In, map_iter_lookup in Hin.
    apply same_target_iff in Hsame. simpl in Hsame.
    by exists id', cb'.
  - pose proof (find_none _ _ Hfind (id, cb)) as Hno.
    rewrite <- list_elem_of_In, map_iter_lookup in Hno.
    specialize (Hno Hid). simpl in Hno.
    assert (same_target callback cb = true) by (by apply same_target_iff).
    congruence.
Qed.

(** X4. [RemoveChangeCallback(callback)] looks at the type of the target
    only.  When no registered listener has a target of the argument's type
    the object is unchanged; otherwise exactly one registration is erased,
    one whose target has that type, and its identifier joins the back of the
    queue. *)
Theorem remove_by_callback_outcome (callback : ChangeCallback T) p :
  ((∀ id cb, m_callbacks p !! id = Some cb →
      target_type cb ≠ target_type callback) →
   RemoveChangeCallback callback p = p)
  ∧ (∀ id cb, m_callbacks p !! id = Some cb →
       target_type cb = target_type callback →
       ∃ id' cb',
         m_callbacks p !! id' = Some cb'
         ∧ target_type cb' = target_type callback
         ∧ RemoveChangeCallback callback p =
             with_registry (delete id' (m_callbacks p))
               (m_availableIDs p ++ [id']) (nextCallbackID p) p
         ∧ size (m_callbacks (RemoveChangeCallback callback p))
           = pred (size (m_callbacks p))).
Proof.
  split.
  - intros Hnone. unfold RemoveChangeCallback.
    destruct (List.find _ _) as [[id cb]|] eqn:Hfind; [|done].
    apply find_some in Hfind as [Hin Hsame].
    apply list_elem_of_In, map_iter_lookup in Hin.
    apply same_target_iff in Hsame. simpl in Hsame.
    by destruct (Hnone id cb Hin).
  - intros id cb Hid Hty.
    destruct (remove_by_callback_found callback p id cb Hid Hty)
      as (id' & cb' & Hid' & Hty' & Heq).
    exists id', cb'. split_and!; [done|done|done|].
    rewrite Heq. simpl. rewrite map_size_delete_Some by eauto. done.
Qed.

(** X5. Two different functions of one type are taken for each other: if
    [id] holds the only registered target of type [ty], removing by any
    callback of type [ty], whatever its function, erases [id]. *)
Theorem remove_by_callback_confuses_functions p id ty (f g : T → T → T * T) :
  m_callbacks p !! id = Some (Target ty f) →
  (∀ id' cb', m_callbacks p !! id' = Some cb' →
     target_type cb' = Some ty → id' = id) →
  m_callbacks (RemoveChangeCallback (Target ty g) p) = delete id (m_callbacks p)
  ∧ m_availableIDs (RemoveChangeCallback (Target ty g) p)
    = m_availableIDs p ++ [id].
Proof.
  intros Hid Honly.
  destruct (remove_by_callback_found (Target ty g) p id (Target ty f) Hid eq_refl)
    as (id' & cb' & Hid' & Hty & ->).
  simpl in Hty. by rewrite (Honly id' cb' Hid' Hty).
Qed.

(** X6. Removing an identifier twice is removing it once: the second call
    finds nothing and queues nothing. *)
Theorem remove_id_twice id p :
  RemoveChangeCallback_id id (RemoveChangeCallback_id id p)
  = RemoveChangeCallback_id id p.
Proof.
  destruct (m_callbacks p !! id) as [cb|] eqn:Hid.
  - assert (RemoveChangeCallback_id id p =
            with_registry (delete id (m_callbacks p))
              (m_availableIDs p ++ [id]) (nextCallbackID p) p) as ->.
    { unfold RemoveChangeCallback_id. by rewrite Hid. }
    apply RemoveChangeCallback_id_absent. simpl. apply lookup_delete_eq.
  - by rewrite !(RemoveChangeCallback_id_absent id p Hid).
Qed.

(** X7. The counter wraps.  With an empty queue and the counter at
    2^64 - 1, [AddChangeCallback] returns 2^64 - 1 and the next one returns
    0 and stores its callback under 0: a listener registered under 0 is
    replaced, so two additions leave only one listener more. *)
Theorem counter_wraps_onto_id_0 p cb0 cb1 cb2 :
  m_availableIDs p = [] →
  nextCallbackID p = (size_t_modulus - 1)%N →
  m_callbacks p !! 0%N = Some cb0 →
  m_callbacks p !! (size_t_modulus - 1)%N = None →
  let r1 := AddChangeCallback cb1 p in
  let r2 := AddChangeCallback cb2 r1.2 in
  r1.1 = (size_t_modulus - 1)%N
  ∧ r2.1 = 0%N
  ∧ m_callbacks r2.2 !! 0%N = Some cb2
  ∧ size (m_callbacks r2.2) = S (size (m_callbacks p)).
Proof.
  intros Hq Hnext H0 Hmax r1 r2. unfold r2, r1, AddChangeCallback. rewrite Hq. simpl.
  rewrite Hnext.
  assert (size_t_incr (size_t_modulus - 1) = 0%N) as -> by (by vm_compute).
  split_and!; [done|done|apply lookup_insert_eq|].
  rewrite map_size_insert_Some.
  - by apply map_size_insert_None.
  - rewrite lookup_insert_ne by (by vm_compute). by rewrite H0.
Qed.

(** *** Further properties of the bindings *)

Lemma bind_again_set (b : addr) (B : gset addr) : {[b]} ∪ ({[b]} ∪ B) = {[b]} ∪ B.
Proof. apply set_eq. intros x. rewrite !elem_of_union. tauto. Qed.

Lemma bind_unbind_set (b : addr) (B : gset addr) : ({[b]} ∪ B) ∖ {[b]} = B ∖ {[b]}.
Proof.
  apply set_eq. intros x. rewrite !elem_of_difference, elem_of_union. tauto.
Qed.

Lemma unbind_absent_set (b : addr) (B : gset addr) : b ∉ B → B ∖ {[b]} = B.
Proof.
  intros Hb. apply set_eq. intros x.
  rewrite elem_of_difference, elem_of_singleton. split; [tauto|].
  intros Hx. split; [done|]. by intros ->.
Qed.

Lemma with_bindings_same p : with_bindings (m_bindings p) p = p.
Proof. by destruct p. Qed.

Lemma AddOneWayBind_eq (a b : addr) (pa : Property T) σ :
  σ !! a = Some pa →
  AddOneWayBind a b σ = Some (<[a := with_bindings ({[b]} ∪ m_bindings pa) pa]> σ).
Proof. intros Ha. unfold AddOneWayBind. by rewrite Ha. Qed.

Lemma RemoveOneWayBind_eq (a b : addr) (pa : Property T) σ :
  σ !! a = Some pa →
  RemoveOneWayBind a b σ = Some (<[a := with_bindings (m_bindings pa ∖ {[b]}) pa]> σ).
Proof. intros Ha. unfold RemoveOneWayBind. by rewrite Ha. Qed.

Lemma RemoveBind_eq (a b : addr) (pa pb : Property T) σ :
  a ≠ b → σ !! a = Some pa → σ !! b = Some pb →
  RemoveBind a b σ =
    Some (<[b := with_bindings (m_bindings pb ∖ {[a]}) pb]>
            (<[a := with_bindings (m_bindings pa ∖ {[b]}) pa]> σ)).
Proof.
  intros Hab Ha Hb. unfold RemoveBind, RemoveOneWayToSourceBind, RemoveOneWayBind.
  rewrite Ha. simpl. rewrite lookup_insert_ne by done. by rewrite Hb.
Qed.


Lemma AddOneWayBind_again (a b : addr) σ σ1 :
  AddOneWayBind a b σ = Some σ1 → AddOneWayBind a b σ1 = Some σ1.
Proof.
  unfold AddOneWayBind. destruct (σ !! a) as [pa|] eqn:Ha; [|done]. simpl.
  intros [= <-]. rewrite lookup_insert_eq. simpl.
  rewrite insert_insert_eq. do 2 f_equal. unfold with_bindings. simpl.
  f_equal. apply bind_again_set.
Qed.

(** X9. Binding twice is binding once: a second [AddOneWayBind] or
    [AddBind] with the same objects changes nothing. *)
Theorem binding_twice_is_once (a b : addr) σ σ1 :
  (AddOneWayBind a b σ = Some σ1 → AddOneWayBind a b σ1 = Some σ1)
  ∧ (AddBind a b σ = Some σ1 → AddBind a b σ1 = Some σ1).
Proof.
  split; [apply AddOneWayBind_again|].
  unfold AddBind, AddOneWayToSourceBind.
  destruct (AddOneWayBind a b σ) as [σ2|] eqn:H1; [|done]. simpl. intros H2.
  destruct (decide (a = b)) as [->|Hab].
  - pose proof (AddOneWayBind_again _ _ _ _ H1) as H1'.
    assert (σ1 = σ2) as -> by congruence.
    rewrite H1'. simpl. exact H1'.
  - unfold AddOneWayBind in H1, H2.
    destruct (σ !! a) as [pa|] eqn:Ha; [|done]. simpl in H1. injection H1 as <-.
    rewrite lookup_insert_ne in H2 by done.
    destruct (σ !! b) as [pb|] eqn:Hb; [|done]. simpl in H2. injection H2 as <-.
    unfold AddOneWayBind.
    rewrite lookup_insert_ne, lookup_insert_eq by done. simpl.
    rewrite lookup_insert_ne, lookup_insert_eq by done. simpl.
    f_equal. apply map_eq. intros x.
    destruct (decide (x = b)) as [->|Hxb].
    + rewrite !lookup_insert_eq. f_equal. unfold with_bindings. simpl.
      f_equal. apply bind_again_set.
    + rewrite !(lookup_insert_ne _ b x) by done.
      destruct (decide (x = a)) as [->|Hxa].
      * rewrite !lookup_insert_eq. f_equal. unfold with_bindings. simpl.
        f_equal. apply bind_again_set.
      * by rewrite !lookup_insert_ne by done.
Qed.

(** X10. [RemoveBind] undoes [AddBind]: for two distinct objects neither of
    which was bound to the other, [AddBind] followed by [RemoveBind] gives
    back the store; in any case the outcome is that of [RemoveBind] alone. *)
Theorem AddBind_then_RemoveBind (a b : addr) (pa pb : Property T) σ σ1 :
  a ≠ b → σ !! a = Some pa → σ !! b = Some pb →
  AddBind a b σ = Some σ1 →
  RemoveBind a b σ1 = RemoveBind a b σ
  ∧ (b ∉ m_bindings pa → a ∉ m_bindings pb → RemoveBind a b σ1 = Some σ).
Proof.
  intros Hab Ha Hb Hadd.
  rewrite (AddBind_eq a b pa pb σ Hab Ha Hb) in Hadd. injection Hadd as <-.
  set (pa' := with_bindings ({[b]} ∪ m_bindings pa) pa).
  set (pb' := with_bindings ({[a]} ∪ m_bindings pb) pb).
  assert (RemoveBind a b (<[b:=pb']> (<[a:=pa']> σ)) = RemoveBind a b σ) as Hsame.
  { rewrite (RemoveBind_eq a b pa' pb'), (RemoveBind_eq a b pa pb σ); try done.
    - f_equal. apply map_eq. intros x.
      destruct (decide (x = b)) as [->|Hxb].
      + rewrite !lookup_insert_eq. f_equal. unfold with_bindings. simpl.
        f_equal. apply bind_unbind_set.
      + rewrite !(lookup_insert_ne _ b x) by done.
        destruct (decide (x = a)) as [->|Hxa].
        * rewrite !lookup_insert_eq. f_equal. unfold with_bindings. simpl.
          f_equal. apply bind_unbind_set.
        * by rewrite !lookup_insert_ne by done.
    - rewrite lookup_insert_ne by done. by rewrite lookup_insert_eq.
    - by rewrite lookup_insert_eq. }
  split; [done|]. intros Hb' Ha'. rewrite Hsame.
  rewrite (RemoveBind_eq a b pa pb σ) by done. f_equal.
  rewrite (unbind_absent_set b (m_bindings pa)) by done.
  rewrite (unbind_absent_set a (m_bindings pb)) by done.
  rewrite !with_bindings_same.
  rewrite (insert_id σ a pa Ha). by apply insert_id.
Qed.

Lemma AddOneWayBind_objects (a b : addr) σ σ1 :
  AddOneWayBind a b σ = Some σ1 →
  ∀ x, option_Forall2 same_but_bindings (σ !! x) (σ1 !! x).
Proof.
  unfold AddOneWayBind. destruct (σ !! a) as [pa|] eqn:Ha; [|done]. simpl.
  intros [= <-] x. destruct (decide (x = a)) as [->|Hxa].
  - rewrite lookup_insert_eq, Ha. by constructor.
  - rewrite lookup_insert_ne by done.
    destruct (σ !! x) as [px|]; constructor.
    unfold same_but_bindings. by rewrite with_bindings_same.
Qed.

Lemma RemoveOneWayBind_objects (a b : addr) σ σ1 :
  RemoveOneWayBind a b σ = Some σ1 →
  ∀ x, option_Forall2 same_but_bindings (σ !! x) (σ1 !! x).
Proof.
  unfold RemoveOneWayBind. destruct (σ !! a) as [pa|] eqn:Ha; [|done]. simpl.
  intros [= <-] x. destruct (decide (x = a)) as [->|Hxa].
  - rewrite lookup_insert_eq, Ha. by constructor.
  - rewrite lookup_insert_ne by done.
    destruct (σ !! x) as [px|]; constructor.
    unfold same_but_bindings. by rewrite with_bindings_same.
Qed.

Lemma same_but_bindings_trans (p1 p2 p3 : Property T) :
  same_but_bindings p1 p2 → same_but_bindings p2 p3 → same_but_bindings p1 p3.
Proof. unfold same_but_bindings. intros -> ->. done. Qed.

Lemma objects_but_bindings_trans σ1 σ2 σ3 :
  (∀ x, option_Forall2 same_but_bindings (σ1 !! x) (σ2 !! x)) →
  (∀ x, option_Forall2 same_but_bindings (σ2 !! x) (σ3 !! x)) →
  ∀ x, option_Forall2 same_but_bindings (σ1 !! x) (σ3 !! x).
Proof.
  intros H12 H23 x. specialize (H12 x). specialize (H23 x).
  destruct H12 as [p1 p2 Hp|]; inversion H23; simplify_eq; constructor.
  by apply (same_but_bindings_trans p1 p2).
Qed.

(** X11. Binding and unbinding touch binding sets only: after [AddBind] or
    [RemoveBind] the same objects are alive, each with the value, listeners,
    queue, counter, validator and coercer it had; in particular nothing is
    copied from one object to the other when they are bound. *)
Theorem binding_changes_bindings_only (a b : addr) σ σ1 :
  AddBind a b σ = Some σ1 ∨ RemoveBind a b σ = Some σ1 →
  (∀ x, option_Forall2 same_but_bindings (σ !! x) (σ1 !! x))
  ∧ (∀ x, read x σ1 = read x σ).
Proof.
  intros Hop.
  assert (∀ x, option_Forall2 same_but_bindings (σ !! x) (σ1 !! x)) as Hobj.
  { destruct Hop as [Hop|Hop].
    - unfold AddBind, AddOneWayToSourceBind in Hop.
      destruct (AddOneWayBind a b σ) as [σ2|] eqn:H1; [|done]. simpl in Hop.
      eapply objects_but_bindings_trans; eauto using AddOneWayBind_objects.
    - unfold RemoveBind, RemoveOneWayToSourceBind in Hop.
      destruct (RemoveOneWayBind a b σ) as [σ2|] eqn:H1; [|done]. simpl in Hop.
      eapply objects_but_bindings_trans; eauto using RemoveOneWayBind_objects. }
  split; [done|]. intros x. unfold read.
  destruct (Hobj x) as [p p' Hp|]; [|done]. simpl. by rewrite Hp.
Qed.

(** X12. Unbinding stops propagation: after [RemoveOneWayBind(a, b)] a
    committed write to [a] returns as before but leaves [b] as it is and
    makes no call on it. *)
Theorem unbound_target_is_left_alone (a b : addr) (pa pb : Property T) σ σ1 v :
  a ≠ b → σ !! a = Some pa → σ !! b = Some pb →
  a ∉ m_bindings pa → (∀ x, x ∈ m_bindings pa → is_Some (σ !! x)) →
  RemoveOneWayBind a b σ = Some σ1 →
  commits pa v →
  ∃ tr σ' v',
    operator_assign a v σ1 = (tr, Some (σ', v'))
    ∧ σ' !! b = Some pb
    ∧ (∀ e, e ∈ tr → event_owner e ≠ b).
Proof.
  intros Hab Ha Hb Hself Hlive Hrm Hc.
  rewrite (RemoveOneWayBind_eq a b pa σ Ha) in Hrm. injection Hrm as <-.
  set (pa' := with_bindings (m_bindings pa ∖ {[b]}) pa).
  destruct (committed_write a pa' (<[a:=pa']> σ) v)
    as (tr & σ' & Hrun & _ & Hframe & _ & _ & _ & _ & Hown).
  - by rewrite lookup_insert_eq.
  - done.
  - simpl. rewrite elem_of_difference. tauto.
  - intros x Hx. simpl in Hx. apply elem_of_difference in Hx as [Hx _].
    destruct (decide (x = a)) as [->|Hxa]; [by rewrite lookup_insert_eq|].
    rewrite lookup_insert_ne by done. by apply Hlive.
  - assert (b ∉ m_bindings pa') as Hnb.
    { simpl. rewrite elem_of_difference, elem_of_singleton. tauto. }
    eexists tr, σ', _. split; [exact Hrun|]. split.
    + rewrite Hframe; [by rewrite lookup_insert_ne|done|done].
    + intros e He Heq. destruct (Hown e He) as [Ho|Ho].
      * congruence.
      * by rewrite Heq in Ho.
Qed.

(** *** Further properties of writes *)

Lemma uncommitted_write_returns this p σ v :
  σ !! this = Some p → ¬ commits p v → is_Some (operator_assign this v σ).2.
Proof.
  intros Hp Hn. destruct (decide (m_value p = v)) as [Hv|Hv].
  { rewrite (operator_assign_skip this p σ v Hp Hv). simpl. by eauto. }
  destruct (verdict (m_validator p) (coerced (m_coerceCallback p) v)) eqn:Hok.
  - by destruct Hn.
  - rewrite (operator_assign_reject this p σ v Hp Hv Hok). simpl. by eauto.
Qed.

Lemma committed_write_returned this p σ v :
  σ !! this = Some p → commits p v →
  is_Some (operator_assign this v σ).2 →
  (this ∉ m_bindings p) ∧ ∀ x, x ∈ m_bindings p → is_Some (σ !! x).
Proof.
  intros Hp Hc [[σ' v'] Hrun].
  rewrite (operator_assign_commit this p σ v Hp Hc) in Hrun.
  cbn [snd] in Hrun.
  destruct (notify_bindings this _ _ _) as [t r] eqn:Hnb. simpl in Hrun. subst r.
  apply notify_bindings_returned in Hnb as [Hthis Hlive].
  rewrite set_iter_elem_of in Hthis. split; [done|].
  intros x Hx. pose proof (Hlive x (proj2 (set_iter_elem_of _ _) Hx)) as Hx'.
  rewrite lookup_insert_ne in Hx'; [done|]. by intros ->.
Qed.

(** X13. When a write returns.  A write that is skipped or rejected always
    returns; a write that commits returns exactly when the object is not
    bound to itself (its mutex is held while the bound objects are locked)
    and every bound object is alive. *)
Theorem write_returns_iff this p σ v :
  σ !! this = Some p →
  is_Some (operator_assign this v σ).2
  ↔ (commits p v →
     (this ∉ m_bindings p) ∧ ∀ x, x ∈ m_bindings p → is_Some (σ !! x)).
Proof.
  intros Hp. split.
  - intros Hret Hc. by apply (committed_write_returned this p σ v).
  - intros Hwf. destruct (decide (m_value p = v)) as [Hv|Hv].
    { apply (uncommitted_write_returns this p σ v Hp). by intros [? _]. }
    destruct (verdict (m_validator p) (coerced (m_coerceCallback p) v)) eqn:Hok.
    + destruct (Hwf (conj Hv Hok)) as [Hself Hlive].
      destruct (committed_write this p σ v Hp (conj Hv Hok) Hself Hlive)
        as (tr & σ' & Hrun & _).
      rewrite Hrun. simpl. by eauto.
    + apply (uncommitted_write_returns this p σ v Hp). intros [_ ?]. congruence.
Qed.

Lemma AddOneWayBind_bound (a b : addr) σ σ1 :
  AddOneWayBind a b σ = Some σ1 →
  ∃ p1, σ1 !! a = Some p1 ∧ b ∈ m_bindings p1.
Proof.
  unfold AddOneWayBind. destruct (σ !! a) as [pa|] eqn:Ha; [|done]. simpl.
  intros [= <-]. eexists. rewrite lookup_insert_eq. split; [done|]. simpl.
  apply elem_of_union. left. by apply elem_of_singleton.
Qed.

(** X14. An object bound to itself cannot be written: after
    [a.AddOneWayBind(a)] or [a.AddBind(a)] no committed write to [a]
    returns, while skipped and rejected writes still do. *)
Theorem self_bound_write_never_returns (a : addr) p σ σ1 v :
  σ !! a = Some p →
  AddOneWayBind a a σ = Some σ1 ∨ AddBind a a σ = Some σ1 →
  (commits p v → (operator_assign a v σ1).2 = None)
  ∧ (¬ commits p v → is_Some (operator_assign a v σ1).2).
Proof.
  intros Hp Hbind.
  assert (∃ p1, σ1 !! a = Some p1 ∧ a ∈ m_bindings p1 ∧ same_but_bindings p p1)
    as (p1 & Hp1 & Hself & Hsame).
  { assert (∀ x, option_Forall2 same_but_bindings (σ !! x) (σ1 !! x)) as Hobj.
    { destruct Hbind as [Hb|Hb].
      - by apply (AddOneWayBind_objects a a).
      - unfold AddBind, AddOneWayToSourceBind in Hb.
        destruct (AddOneWayBind a a σ) as [σ2|] eqn:H1; [|done]. simpl in Hb.
        eapply objects_but_bindings_trans; eauto using AddOneWayBind_objects. }
    assert (∃ p1, σ1 !! a = Some p1 ∧ a ∈ m_bindings p1) as (p1 & Hp1 & Hin).
    { destruct Hbind as [Hb|Hb]; [by apply AddOneWayBind_bound in Hb|].
      unfold AddBind, AddOneWayToSourceBind in Hb.
      destruct (AddOneWayBind a a σ) as [σ2|]; [|done]. simpl in Hb.
      by apply AddOneWayBind_bound in Hb. }
    exists p1. split_and!; [done|done|].
    specialize (Hobj a). rewrite Hp, Hp1 in Hobj. by inversion Hobj. }
  assert (commits p1 v ↔ commits p v) as Hc.
  { unfold commits, same_but_bindings in *. rewrite Hsame. by simpl. }
  split.
  - intros Hcp. apply eq_None_not_Some. intros Hsome.
    apply (committed_write_returned a p1 σ1 v Hp1) in Hsome as [Hno _];
      [done|by apply Hc].
  - intros Hn. apply (uncommitted_write_returns a p1 σ1 v Hp1).
    intros Hcp. by apply Hc in Hcp.
Qed.

(** The objects of the store after a write that returned. *)
Lemma returned_write_objects this p σ v tr σ' v' :
  σ !! this = Some p →
  operator_assign this v σ = (tr, Some (σ', v')) →
  ∀ x,
    σ' !! x = σ !! x
    ∨ (x = this ∧ commits p v ∧ σ' !! x = Some (with_value (commit_value p v) p))
    ∨ (∃ b w, commits p v ∧ x ∈ m_bindings p ∧ σ !! x = Some b
              ∧ σ' !! x = Some (with_value (offered_value b w) b)).
Proof.
  intros Hp Hrun x. destruct (decide (m_value p = v)) as [Hv|Hv].
  { rewrite (operator_assign_skip this p σ v Hp Hv) in Hrun.
    left. congruence. }
  destruct (verdict (m_validator p) (coerced (m_coerceCallback p) v)) eqn:Hok.
  2:{ rewrite (operator_assign_reject this p σ v Hp Hv Hok) in Hrun.
      left. congruence. }
  assert (is_Some (operator_assign this v σ).2) as Hret by (rewrite Hrun; by eauto).
  apply (committed_write_returned this p σ v Hp) in Hret as [Hself Hlive]; [|done].
  destruct (committed_write this p σ v Hp (conj Hv Hok) Hself Hlive)
    as (tr1 & σ1 & Hrun1 & Hthis & Hframe & Hvisit & _).
  rewrite Hrun in Hrun1. injection Hrun1 as -> -> _.
  destruct (decide (x = this)) as [->|Hx]; [right; left; by eauto|].
  destruct (decide (x ∈ m_bindings p)) as [Hin|Hout]; [|left; by apply Hframe].
  right. right. destruct (Hlive x Hin) as [b Hb].
  pose proof Hin as Hin'. apply set_iter_elem_of, list_elem_of_split in Hin'
    as (l1 & l2 & Hl).
  destruct (Hvisit l1 x l2 b Hl Hb) as [Hx' _].
  eexists b, _. split_and!; [by split|done|done|exact Hx'].
Qed.

(** X15. A write changes values and nothing else: when it returns, the same
    objects are alive and each has the listeners, identifier queue and
    counter, bindings, validator and coercer it had. *)
Theorem write_changes_values_only this σ v tr σ' v' :
  operator_assign this v σ = (tr, Some (σ', v')) →
  ∀ x, option_Forall2 same_but_value (σ !! x) (σ' !! x).
Proof.
  intros Hrun x. destruct (σ !! this) as [p|] eqn:Hp.
  2:{ unfold operator_assign in Hrun. by rewrite Hp in Hrun. }
  assert (∀ (q : Property T) (z : T), same_but_value q (with_value z q)) as Hwv
    by (by unfold same_but_value).
  destruct (returned_write_objects this p σ v tr σ' v' Hp Hrun x)
    as [Hx|[(-> & _ & Hx)|(b & w & _ & _ & Hb & Hx)]].
  - rewrite Hx. destruct (σ !! x) as [q|]; constructor.
    unfold same_but_value. by rewrite with_value_same.
  - rewrite Hx, Hp. constructor. apply Hwv.
  - rewrite Hx, Hb. constructor. apply Hwv.
Qed.

Lemma holds_valid_offered (b : Property T) w :
  validator_keeps (m_validator b) → holds_valid b →
  holds_valid (with_value (offered_value b w) b).
Proof.
  intros Hkeep Hb. unfold holds_valid, offered_value. simpl.
  case_bool_decide; [|done].
  destruct (verdict _ (coerced _ w)) eqn:Hok; [|done]. by rewrite Hkeep.
Qed.

(** X16. Validators that only judge are never bypassed by a write: if no
    validator changes its argument and every object holds a value its
    validator accepts, the same is true of every object after any write
    that returns, the written object and the bound ones alike. *)
Theorem validators_hold_after_write this σ v tr σ' v' :
  (∀ x p, σ !! x = Some p → validator_keeps (m_validator p)) →
  (∀ x p, σ !! x = Some p → holds_valid p) →
  operator_assign this v σ = (tr, Some (σ', v')) →
  ∀ x p', σ' !! x = Some p' → holds_valid p'.
Proof.
  intros Hkeep Hvalid Hrun x p' Hx'. destruct (σ !! this) as [p|] eqn:Hp.
  2:{ unfold operator_assign in Hrun. by rewrite Hp in Hrun. }
  destruct (returned_write_objects this p σ v tr σ' v' Hp Hrun x)
    as [Hx|[(-> & [_ Hok] & Hx)|(b & w & _ & _ & Hb & Hx)]].
  - rewrite Hx in Hx'. by apply (Hvalid x).
  - rewrite Hx in Hx'. injection Hx' as <-.
    unfold holds_valid, commit_value. simpl. by rewrite (Hkeep this p Hp).
  - rewrite Hx in Hx'. injection Hx' as <-.
    apply holds_valid_offered; eauto.
Qed.

(** X17. Bound objects without coercer and validator take the value: when
    the listeners leave [newValue] alone, a committed write leaves the
    written object and every such bound object holding the committed value,
    and that value in the caller's variable. *)
Theorem plain_targets_take_the_value this p σ v :
  σ !! this = Some p → commits p v →
  this ∉ m_bindings p →
  (∀ x, x ∈ m_bindings p →
     ∃ b, σ !! x = Some b ∧ m_coerceCallback b = None ∧ m_validator b = None) →
  listeners_keep (map_iter (m_callbacks p)) →
  ∃ tr σ',
    operator_assign this v σ = (tr, Some (σ', commit_value p v))
    ∧ read this σ' = Some (commit_value p v)
    ∧ (∀ x, x ∈ m_bindings p → read x σ' = Some (commit_value p v)).
Proof.
  intros Hp Hc Hself Hplain Hkeep.
  assert (∀ x, x ∈ m_bindings p → is_Some (σ !! x)) as Hlive.
  { intros x Hx. destruct (Hplain x Hx) as (b & -> & _). by eauto. }
  destruct (committed_write this p σ v Hp Hc Hself Hlive)
    as (tr & σ' & Hrun & Hthis & _ & Hvisit & _).
  rewrite after_callbacks_keep in Hrun, Hvisit by done.
  assert (∀ l, l ⊆ set_iter (m_bindings p) →
               passed_along σ l (commit_value p v) = commit_value p v) as Hpass.
  { intros l Hl. apply passed_along_fixed. intros y b Hy Hb.
    apply Hl, set_iter_elem_of in Hy.
    destruct (Hplain y Hy) as (b' & Hb' & Hco & Hvd). simplify_eq.
    unfold passed_on. rewrite Hco, Hvd. simpl. by case_bool_decide. }
  rewrite Hpass in Hrun by done.
  exists tr, σ'. split_and!; [done|unfold read; by rewrite Hthis|].
  intros x Hx. destruct (Hplain x Hx) as (b & Hb & Hco & Hvd).
  pose proof Hx as Hx'. apply set_iter_elem_of, list_elem_of_split in Hx'
    as (l1 & l2 & Hl).
  destruct (Hvisit l1 x l2 b Hl Hb) as [Hxb _].
  rewrite Hpass in Hxb by (intros y Hy; rewrite Hl, elem_of_app; by left).
  unfold read. rewrite Hxb. simpl. f_equal.
  unfold offered_value. rewrite Hco, Hvd. simpl.
  case_bool_decide as Hne; [done|]. by destruct (decide (m_value b = commit_value p v)).
Qed.

(** X18. The comparison is not repeated after the coercer: a write of a
    value that differs from the current one but that the coercer turns into
    the current one commits all the same; the object is as before, yet
    every listener holding a target is called once, the first one with
    [oldValue] and [newValue] both the current value. *)
Theorem coerced_to_current_still_notifies this p σ v :
  σ !! this = Some p →
  m_value p ≠ v →
  coerced (m_coerceCallback p) v = m_value p →
  verdict (m_validator p) (m_value p) = true →
  validated (m_validator p) (m_value p) = m_value p →
  this ∉ m_bindings p → (∀ x, x ∈ m_bindings p → is_Some (σ !! x)) →
  ∃ tr σ' v',
    operator_assign this v σ = (tr, Some (σ', v'))
    ∧ σ' !! this = Some p
    ∧ (∀ id ty f, m_callbacks p !! id = Some (Target ty f) →
         calls_of this id tr = 1)
    ∧ (∀ id ty f k2, map_iter (m_callbacks p) = (id, Target ty f) :: k2 →
         EvCallback this id (m_value p) (m_value p) ∈ tr).
Proof.
  intros Hp Hv Hco Hok Hvd Hself Hlive.
  assert (commits p v) as Hc by (split; [done|by rewrite Hco]).
  assert (commit_value p v = m_value p) as Hcv
    by (unfold commit_value; by rewrite Hco).
  destruct (committed_write this p σ v Hp Hc Hself Hlive)
    as (tr & σ' & Hrun & Hthis & _ & _ & Hcalls & Hcount & _).
  rewrite Hcv in Hthis, Hcalls. rewrite with_value_same in Hthis.
  eexists tr, σ', _. split_and!; [done|done| |].
  - intros id ty f Hid. unfold calls_of. rewrite Hcount. by rewrite Hid.
  - intros id ty f k2 Hl. apply (Hcalls [] id ty f k2 Hl).
Qed.

(** X19. Registration decides who is told: in a committed write to an object
    on which [AddChangeCallback] has just registered a target, that target
    is called exactly once; on an object from which [RemoveChangeCallback]
    has just removed an identifier, no call is made under it. *)
Theorem registration_decides_calls this p σ v ty (f : T → T → T * T) id :
  commits p v →
  this ∉ m_bindings p → (∀ x, x ∈ m_bindings p → x ≠ this → is_Some (σ !! x)) →
  let added := AddChangeCallback (Target ty f) p in
  (∃ tr σ' v',
     operator_assign this v (<[this := added.2]> σ) = (tr, Some (σ', v'))
     ∧ calls_of this added.1 tr = 1)
  ∧ (∃ tr σ' v',
       operator_assign this v (<[this := RemoveChangeCallback_id id p]> σ)
       = (tr, Some (σ', v'))
       ∧ calls_of this id tr = 0).
Proof.
  intros Hc Hself Hlive added.
  assert (∀ q, m_bindings q = m_bindings p →
               ∀ x, x ∈ m_bindings q → is_Some (<[this := q]> σ !! x)) as Hlive'.
  { intros q Hq x Hx. rewrite Hq in Hx.
    destruct (decide (x = this)) as [->|Hne]; [done|].
    rewrite lookup_insert_ne by done. by apply Hlive. }
  split.
  - assert (m_bindings added.2 = m_bindings p ∧ commits added.2 v
            ∧ m_callbacks added.2 !! added.1 = Some (Target ty f))
      as (Hb & Hc' & Hreg).
    { unfold added, AddChangeCallback.
      destruct (m_availableIDs p); simpl; by rewrite lookup_insert_eq. }
    destruct (committed_write this added.2 (<[this := added.2]> σ) v)
      as (tr & σ' & Hrun & _ & _ & _ & _ & Hcount & _);
      [by rewrite lookup_insert_eq|done|by rewrite Hb|by apply Hlive'|].
    eexists tr, σ', _. split; [done|]. unfold calls_of.
    rewrite Hcount. by rewrite Hreg.
  - set (q := RemoveChangeCallback_id id p).
    assert (m_bindings q = m_bindings p ∧ commits q v ∧ m_callbacks q !! id = None)
      as (Hb & Hc' & Hreg).
    { unfold q, RemoveChangeCallback_id.
      destruct (m_callbacks p !! id) eqn:Hid; simpl; [|done].
      by rewrite lookup_delete_eq. }
    destruct (committed_write this q (<[this := q]> σ) v)
      as (tr & σ' & Hrun & _ & _ & _ & _ & Hcount & _);
      [by rewrite lookup_insert_eq|done|by rewrite Hb|by apply Hlive'|].
    eexists tr, σ', _. split; [done|]. unfold calls_of.
    rewrite Hcount. by rewrite Hreg.
Qed.

(** X20. Listeners first, bound objects after: the calls of any write split
    into a first part made on the written object only (comparison, coercer,
    validator, listeners) and a second part made on its bound objects only,
    with no listener call in it. *)
Theorem listeners_run_before_propagation this p σ v :
  σ !! this = Some p →
  ∃ pre post,
    (operator_assign this v σ).1 = pre ++ post
    ∧ (∀ e, e ∈ pre → event_owner e = this)
    ∧ (∀ e, e ∈ post →
         event_owner e ∈ m_bindings p ∧ event_owner e ≠ this
         ∧ is_callback e = false).
Proof.
  intros Hp. destruct (decide (m_value p = v)) as [Hv|Hv].
  { rewrite (operator_assign_skip this p σ v Hp Hv). simpl.
    exists [EvNeq this v v], []. split_and!; [done| |by intros ? ?%elem_of_nil].
    by intros e ->%list_elem_of_singleton. }
  destruct (verdict (m_validator p) (coerced (m_coerceCallback p) v)) eqn:Hok.
  - rewrite (operator_assign_commit this p σ v Hp (conj Hv Hok)). cbn [fst].
    match goal with
    | |- ∃ pre post, ?e :: ?t1 ++ ?t2 ++ ?t3 ++ ?t4 = _ ∧ _ =>
        exists (e :: t1 ++ t2 ++ t3), t4
    end.
    split_and!.
    + simpl. by rewrite <- !app_assoc.
    + intros e [->|He]%elem_of_cons; [done|].
      rewrite !elem_of_app in He. destruct He as [He|[He|He]].
      * by apply coerce_calls_owner in He as [? _].
      * by apply validate_calls_owner in He as [? _].
      * by apply notify_callbacks_calls in He as (?&?&?&?&?&->&?).
    + intros e He. apply notify_bindings_calls in He as (Hin & Hne & Hcb).
      by rewrite set_iter_elem_of in Hin.
  - rewrite (operator_assign_reject this p σ v Hp Hv Hok). cbn [fst].
    eexists _, []. split_and!; [by rewrite app_nil_r| |by intros ? ?%elem_of_nil].
    intros e [->|He]%elem_of_cons; [done|].
    apply elem_of_app in He as [He|He].
    + by apply coerce_calls_owner in He as [? _].
    + by apply validate_calls_owner in He as [? _].
Qed.

(** X21. [SetValidator] rules the next write and only that: the value held
    stays, whether or not the new validator accepts it; a write the new
    validator rejects leaves the store as it is; a write it accepts stores
    what the coercer and the new validator leave. *)
Theorem SetValidator_rules_next_write this p σ (vd' : Validator T) v :
  σ !! this = Some p →
  let σ1 := <[this := SetValidator vd' p]> σ in
  read this σ1 = Some (m_value p)
  ∧ (verdict vd' (coerced (m_coerceCallback p) v) = false →
     ∃ tr v', operator_assign this v σ1 = (tr, Some (σ1, v')))
  ∧ (m_value p ≠ v → verdict vd' (coerced (m_coerceCallback p) v) = true →
     this ∉ m_bindings p → (∀ x, x ∈ m_bindings p → is_Some (σ !! x)) →
     ∃ tr σ' v',
       operator_assign this v σ1 = (tr, Some (σ', v'))
       ∧ read this σ' = Some (validated vd' (coerced (m_coerceCallback p) v))).
Proof.
  intros Hp σ1.
  assert (σ1 !! this = Some (SetValidator vd' p)) as Hp1
    by (unfold σ1; by rewrite lookup_insert_eq).
  split_and!.
  - unfold read. by rewrite Hp1.
  - intros Hrej. destruct (decide (m_value p = v)) as [Hv|Hv].
    + eexists _, _. by apply (operator_assign_skip this _ σ1 v Hp1).
    + eexists _, _. by apply (operator_assign_reject this _ σ1 v Hp1).
  - intros Hv Hok Hself Hlive.
    destruct (committed_write this (SetValidator vd' p) σ1 v Hp1)
      as (tr & σ' & Hrun & Hthis & _); [done|done| |].
    { intros x Hx. unfold σ1.
      destruct (decide (x = this)) as [->|Hne]; [by rewrite lookup_insert_eq|].
      rewrite lookup_insert_ne by done. by apply Hlive. }
    eexists tr, σ', _. split; [done|]. unfold read. by rewrite Hthis.
Qed.

(** X22. [SetCoerceCallback] rules the next write: the value held stays; the
    next write is compared raw, then passed through the new coercer before
    the validator sees it, and a committed write stores the result. *)
Theorem SetCoerceCallback_rules_next_write this p σ (c' : CoerceCallback T) v :
  σ !! this = Some p →
  let σ1 := <[this := SetCoerceCallback c' p]> σ in
  read this σ1 = Some (m_value p)
  ∧ (m_value p = v →
     operator_assign this v σ1 = ([EvNeq this (m_value p) v], Some (σ1, v)))
  ∧ (m_value p ≠ v → verdict (m_validator p) (coerced c' v) = true →
     this ∉ m_bindings p → (∀ x, x ∈ m_bindings p → is_Some (σ !! x)) →
     ∃ tr σ' v',
       operator_assign this v σ1 = (tr, Some (σ', v'))
       ∧ read this σ' = Some (validated (m_validator p) (coerced c' v))).
Proof.
  intros Hp σ1.
  assert (σ1 !! this = Some (SetCoerceCallback c' p)) as Hp1
    by (unfold σ1; by rewrite lookup_insert_eq).
  split_and!.
  - unfold read. by rewrite Hp1.
  - intros Hv. rewrite (operator_assign_skip this _ σ1 v Hp1 Hv). by rewrite Hv.
  - intros Hv Hok Hself Hlive.
    destruct (committed_write this (SetCoerceCallback c' p) σ1 v Hp1)
      as (tr & σ' & Hrun & Hthis & _); [done|done| |].
    { intros x Hx. unfold σ1.
      destruct (decide (x = this)) as [->|Hne]; [by rewrite lookup_insert_eq|].
      rewrite lookup_insert_ne by done. by apply Hlive. }
    eexists tr, σ', _. split; [done|]. unfold read. by rewrite Hthis.
Qed.

(** *** Reading back, direction of bindings, constructed objects *)

(** X23. Write, then read.  After a write that returned, reading the object
    gives the committed value if the write committed and the value held
    before if it was skipped or rejected. *)
Theorem write_then_read this p σ v tr σ' v' :
  σ !! this = Some p →
  operator_assign this v σ = (tr, Some (σ', v')) →
  (commits p v → read this σ' = Some (commit_value p v))
  ∧ (¬ commits p v → read this σ' = Some (m_value p)).
Proof.
  intros Hp Hrun. split.
  - intros Hc.
    assert (is_Some (operator_assign this v σ).2) as Hret by (rewrite Hrun; by eauto).
    apply (committed_write_returned this p σ v Hp Hc) in Hret as [Hself Hlive].
    destruct (committed_write this p σ v Hp Hc Hself Hlive)
      as (tr1 & σ1 & Hrun1 & Hthis & _).
    rewrite Hrun in Hrun1. injection Hrun1 as -> -> _.
    unfold read. by rewrite Hthis.
  - intros Hn. assert (σ' = σ) as ->.
    { destruct (decide (m_value p = v)) as [Hv|Hv].
      - rewrite (operator_assign_skip this p σ v Hp Hv) in Hrun. congruence.
      - destruct (verdict (m_validator p) (coerced (m_coerceCallback p) v)) eqn:Hok.
        + by destruct Hn.
        + rewrite (operator_assign_reject this p σ v Hp Hv Hok) in Hrun. congruence. }
    unfold read. by rewrite Hp.
Qed.

(** A committed write leaves alone an object that is neither the written
    one nor bound to it. *)
Lemma unbound_write (x y : addr) (px : Property T) σ v :
  σ !! x = Some px → y ≠ x → y ∉ m_bindings px →
  x ∉ m_bindings px → (∀ z, z ∈ m_bindings px → is_Some (σ !! z)) →
  commits px v →
  ∃ tr σ' v',
    operator_assign x v σ = (tr, Some (σ', v'))
    ∧ σ' !! y = σ !! y
    ∧ (∀ e, e ∈ tr → event_owner e ≠ y).
Proof.
  intros Hx Hyx Hy Hself Hlive Hc.
  destruct (committed_write x px σ v Hx Hc Hself Hlive)
    as (tr & σ' & Hrun & _ & Hframe & _ & _ & _ & _ & Hown).
  eexists tr, σ', _. split_and!; [done|by apply Hframe|].
  intros e He Heq. destruct (Hown e He) as [Ho|Ho]; congruence.
Qed.

(** X24. [AddOneWayToSourceBind] binds the other way round: after
    [a.AddOneWayToSourceBind(b)] a committed write to [b] offers [a] the
    content [w] of the shared variable, which is the value committed to [b]
    as [b]'s listeners and the objects visited before [a] left it (the
    committed value itself when they left it unchanged), and [a] then reads
    what its own comparison, coercer and validator make of [w]; while a
    committed write to [a] makes no call on [b] and leaves it as it is. *)
Theorem source_bind_direction (a b : addr) (pa pb : Property T) σ σ1 v :
  a ≠ b → σ !! a = Some pa → σ !! b = Some pb →
  a ∉ m_bindings pa → b ∉ m_bindings pa → b ∉ m_bindings pb →
  (∀ x, x ∈ m_bindings pa → is_Some (σ !! x)) →
  (∀ x, x ∈ m_bindings pb → is_Some (σ !! x)) →
  AddOneWayToSourceBind a b σ = Some σ1 →
  (commits pb v →
   ∃ tr σ' v' w l1 l2,
     operator_assign b v σ1 = (tr, Some (σ', v'))
     ∧ set_iter ({[a]} ∪ m_bindings pb) = l1 ++ a :: l2
     ∧ w = passed_along σ1 l1
             (after_callbacks (map_iter (m_callbacks pb))
                (m_value pb) (commit_value pb v)).2
     ∧ EvNeq a (m_value pa) w ∈ tr
     ∧ read a σ' = Some (offered_value pa w)
     ∧ (m_value pa ≠ w →
        verdict (m_validator pa) (coerced (m_coerceCallback pa) w) = true →
        read a σ' = Some (validated (m_validator pa) (coerced (m_coerceCallback pa) w)))
     ∧ (listeners_keep (map_iter (m_callbacks pb)) →
        (∀ y by', y ∈ l1 → σ1 !! y = Some by' →
           passed_on by' (commit_value pb v) = commit_value pb v) →
        w = commit_value pb v)
     ∧ read b σ' = Some (commit_value pb v))
  ∧ (commits pa v →
     ∃ tr σ' v',
       operator_assign a v σ1 = (tr, Some (σ', v'))
       ∧ σ' !! b = σ1 !! b
       ∧ (∀ e, e ∈ tr → event_owner e ≠ b)).
Proof.
  intros Hab Ha Hb Hsa Hnb Hsb Hla Hlb Hbind.
  unfold AddOneWayToSourceBind in Hbind.
  rewrite (AddOneWayBind_eq b a pb σ Hb) in Hbind. injection Hbind as <-.
  set (pb' := with_bindings ({[a]} ∪ m_bindings pb) pb).
  assert (Hlive1 : ∀ x, is_Some (σ !! x) → is_Some (<[b:=pb']> σ !! x)).
  { intros x Hx. destruct (decide (x = b)) as [->|?]; [by rewrite lookup_insert_eq|].
    by rewrite lookup_insert_ne. }
  assert (Ha1 : <[b:=pb']> σ !! a = Some pa) by (by rewrite lookup_insert_ne).
  split; intros Hc.
  - destruct (bound_write b a pb' pa (<[b:=pb']> σ) v)
      as (tr & σ' & v' & w & l1 & l2 & Hrun & Hl & Hw & Hev & Ha' & Hb' & _);
      [by rewrite lookup_insert_eq|done| | | |done|].
    { simpl. apply elem_of_union. left. by apply elem_of_singleton. }
    { simpl. rewrite not_elem_of_union, not_elem_of_singleton. done. }
    { intros x Hx. simpl in Hx.
      apply elem_of_union in Hx as [->%elem_of_singleton|Hx]; [by rewrite Ha1|].
      by apply Hlive1, Hlb. }
    assert (read a σ' = Some (offered_value pa w)) as Hread
      by (unfold read; by rewrite Ha').
    exists tr, σ', v', w, l1, l2. split_and!; try done.
    + intros Hne Hok. by rewrite Hread, offered_value_accepted.
    + intros Hkeep Hfix. rewrite Hw. by apply left_unchanged.
    + unfold read. by rewrite Hb'.
  - apply (unbound_write a b pa (<[b:=pb']> σ) v); try done.
    intros x Hx. by apply Hlive1, Hla.
Qed.

(** X25. [RemoveBind] stops propagation both ways: after
    [a.RemoveBind(b)] a committed write to either object makes no call on
    the other and leaves it as it is. *)
Theorem RemoveBind_stops_both_ways (a b : addr) (pa pb : Property T) σ σ1 v :
  a ≠ b → σ !! a = Some pa → σ !! b = Some pb →
  a ∉ m_bindings pa → b ∉ m_bindings pb →
  (∀ x, x ∈ m_bindings pa → is_Some (σ !! x)) →
  (∀ x, x ∈ m_bindings pb → is_Some (σ !! x)) →
  RemoveBind a b σ = Some σ1 →
  (commits pa v →
   ∃ tr σ' v',
     operator_assign a v σ1 = (tr, Some (σ', v'))
     ∧ σ' !! b = σ1 !! b
     ∧ (∀ e, e ∈ tr → event_owner e ≠ b))
  ∧ (commits pb v →
     ∃ tr σ' v',
       operator_assign b v σ1 = (tr, Some (σ', v'))
       ∧ σ' !! a = σ1 !! a
       ∧ (∀ e, e ∈ tr → event_owner e ≠ a)).
Proof.
  intros Hab Ha Hb Hsa Hsb Hla Hlb Hrm.
  rewrite (RemoveBind_eq a b pa pb σ Hab Ha Hb) in Hrm. injection Hrm as <-.
  set (pa' := with_bindings (m_bindings pa ∖ {[b]}) pa).
  set (pb' := with_bindings (m_bindings pb ∖ {[a]}) pb).
  set (σ1 := <[b:=pb']> (<[a:=pa']> σ)).
  assert (Ha1 : σ1 !! a = Some pa').
  { unfold σ1. rewrite lookup_insert_ne by done. by rewrite lookup_insert_eq. }
  assert (Hb1 : σ1 !! b = Some pb') by (unfold σ1; by rewrite lookup_insert_eq).
  assert (Hlive1 : ∀ x, is_Some (σ !! x) → is_Some (σ1 !! x)).
  { intros x Hx. unfold σ1.
    destruct (decide (x = b)) as [->|?]; [by rewrite lookup_insert_eq|].
    rewrite lookup_insert_ne by done.
    destruct (decide (x = a)) as [->|?]; [by rewrite lookup_insert_eq|].
    by rewrite lookup_insert_ne. }
  split; intros Hc.
  - apply (unbound_write a b pa' σ1 v); try done.
    + simpl. rewrite elem_of_difference, elem_of_singleton. tauto.
    + simpl. rewrite elem_of_difference. tauto.
    + intros x Hx. simpl in Hx. apply elem_of_difference in Hx as [Hx _].
      by apply Hlive1, Hla.
  - apply (unbound_write b a pb' σ1 v); try done.
    + simpl. rewrite elem_of_difference, elem_of_singleton. tauto.
    + simpl. rewrite elem_of_difference. tauto.
    + intros x Hx. simpl in Hx. apply elem_of_difference in Hx as [Hx _].
      by apply Hlive1, Hlb.
Qed.

Lemma map_iter_empty : map_iter (∅ : gmap CallbackID (ChangeCallback T)) = [].
Proof. apply Permutation_nil_r. rewrite map_iter_perm. by rewrite map_to_list_empty. Qed.

Lemma set_iter_empty : set_iter (∅ : gset addr) = [].
Proof. apply Permutation_nil_r. rewrite set_iter_perm. by rewrite elements_empty. Qed.

(** X26. A write to a freshly constructed object always returns: having no
    listener and no binding, it calls nothing but the comparison, the
    coercer and the validator of that object, and touches no other
    object. *)
Theorem constructed_object_write this value vd c σ v :
  σ !! this = Some (new_Property value vd c) →
  ∃ tr σ' v',
    operator_assign this v σ = (tr, Some (σ', v'))
    ∧ (∀ e, e ∈ tr → event_owner e = this ∧ is_callback e = false)
    ∧ (∀ x, x ≠ this → σ' !! x = σ !! x).
Proof.
  intros Hp. set (p := new_Property value vd c) in *.
  assert (∀ (t1 t2 : list (event T)) e,
            (∀ e, e ∈ t1 → event_owner e = this ∧ is_callback e = false) →
            (∀ e, e ∈ t2 → event_owner e = this ∧ is_callback e = false) →
            e ∈ EvNeq this (m_value p) v :: t1 ++ t2 →
            event_owner e = this ∧ is_callback e = false) as Hown.
  { intros t1 t2 e H1 H2 [->|He]%elem_of_cons; [done|].
    apply elem_of_app in He as [He|He]; auto. }
  destruct (decide (m_value p = v)) as [Hv|Hv].
  { eexists _, σ, _. split_and!; [by apply (operator_assign_skip this p)| |done].
    by intros e ->%list_elem_of_singleton. }
  destruct (verdict (m_validator p) (coerced (m_coerceCallback p) v)) eqn:Hok.
  - pose proof (operator_assign_commit this p σ v Hp (conj Hv Hok)) as Hrun.
    cbv zeta in Hrun. change (m_callbacks p) with (∅ : gmap CallbackID (ChangeCallback T)) in Hrun.
    change (m_bindings p) with (∅ : gset addr) in Hrun.
    rewrite map_iter_empty, set_iter_empty in Hrun. simpl in Hrun.
    rewrite !app_nil_r in Hrun.
    eexists _, _, _. split_and!; [exact Hrun| |].
    + intros e He.
      eapply Hown; [| |exact He]; intros e';
        [apply coerce_calls_owner|apply validate_calls_owner].
    + intros x Hx. by rewrite lookup_insert_ne.
  - eexists _, σ, _. split_and!; [by apply (operator_assign_reject this p)| |done].
    intros e He.
    eapply Hown; [| |exact He]; intros e';
      [apply coerce_calls_owner|apply validate_calls_owner].
Qed.

End Theory.

(** Three adds on a constructed [Property<int>] get 0, 1, 2; releasing 1
    then 0 hands out 1, 0 and then the counter's 2. *)
Lemma listener_id_reuse_witness :
  (add_all [NoTarget; NoTarget; NoTarget] (new_Property 5%Z None None)).1
  = [0; 1; 2]%N
  ∧ (add_all ([NoTarget; NoTarget] ++ [NoTarget])
       (remove_all [1; 0]%N
          (add_all [NoTarget; NoTarget] (new_Property 5%Z None None)).2)).1
    = [1; 0]%N ++ [2%N].
Proof.
  destruct (@listener_id_reuse Z) as (_ & Hmint & Hfifo & _). split.
  - apply (Hmint 5%Z None None [NoTarget; NoTarget; NoTarget]).
    vm_compute. discriminate.
  - apply (Hfifo (add_all [NoTarget; NoTarget] (new_Property 5%Z None None)).2
             [1; 0]%N [NoTarget; NoTarget] NoTarget).
    + reflexivity.
    + compute_done.
    + intros id Hid.
      repeat (apply elem_of_cons in Hid as [->|Hid]; [compute_done|]).
      by apply elem_of_nil in Hid.
    + reflexivity.
Defined.

(** ** The theorems at work on the example objects *)

Import Examples.
Import MoreExamples.

(** An [int] 5 guarded by [> 0]: [-1] is refused, [10] is
    taken and the listener is told once, with 5 and 10. *)
Example guarded_scenario :
  let refused := operator_assign (ord := table_order Z) 1 (-1)%Z guarded in
  let taken := operator_assign (ord := table_order Z) 1 10%Z guarded in
  refused.1 = [EvNeq 1 5 (-1); EvValidate 1 (-1)]%Z
  ∧ value_after refused.2 1 = Some 5%Z
  ∧ taken.1 = [EvNeq 1 5 10; EvValidate 1 10; EvCallback 1 0 5 10]%Z
  ∧ value_after taken.2 1 = Some 10%Z.
Proof. vm_compute. done. Qed.

Lemma rejected_write_is_silent_witness :
  ∃ p,
    guarded !! 1%positive = Some p
    ∧ ∃ tr σ' v',
    operator_assign (ord := table_order Z) 1 (-1)%Z guarded = (tr, Some (σ', v'))
    ∧ σ' = guarded
    ∧ read 1 σ' = Some (m_value p)
    ∧ (∀ x, x ∈ m_bindings p → read x σ' = read x guarded)
    ∧ (∀ e, e ∈ tr → is_callback e = false).
Proof.
  eexists. split; [vm_compute; reflexivity|].
  apply (rejected_write_is_silent (ord := table_order Z) 1%positive _ guarded
           (-1)%Z (λ x, (0 <? x, x)%Z)).
  - vm_compute; reflexivity.
  - reflexivity.
  - reflexivity.
Defined.


(** Writing 5 over 5 does nothing, although the coercer would make it 6. *)
Lemma equal_write_does_nothing_witness :
  coerced (plus 1) 5%Z = 6%Z
  ∧ ∃ p,
    bumping !! 1%positive = Some p
    ∧ operator_assign (ord := table_order Z) 1 5%Z bumping
      = ([EvNeq 1 (m_value p) 5%Z], Some (bumping, 5%Z)).
Proof.
  split; [reflexivity|]. eexists. split; [vm_compute; reflexivity|].
  apply (equal_write_does_nothing (ord := table_order Z)).
  - vm_compute; reflexivity.
  - reflexivity.
Defined.

(** In the chain 1, 2, 3 with observing listeners, writing 7 to 1 leaves 7
    in 1 and 2 and the old 0 in 3. *)
Lemma propagation_is_one_hop_witness :
  ∃ tr σ' v',
    operator_assign (ord := table_order Z) 1 7%Z chain = (tr, Some (σ', v'))
    ∧ (EvNeq 2 0 7)%Z ∈ tr
    ∧ read 2 σ' = Some 7%Z
    ∧ read 1 σ' = Some 7%Z
    ∧ read 3 σ' = Some 0%Z
    ∧ (∀ e, e ∈ tr → is_callback e = true → event_owner e = 1%positive)
    ∧ (∀ e, e ∈ tr → event_owner e ≠ 3%positive).
Proof.
  edestruct (propagation_is_one_hop (ord := table_order Z) 1 2 3)
    with (σ := chain) (v := 7%Z)
    as (tr & σ' & v' & w & l1 & l2 & Hrun & Hl & Hw & Hev & _ & _ & Hacc & _
        & Hkeep & Ha & _ & Hc & Hcb & _ & Hnc & _).
  - vm_compute; reflexivity.
  - vm_compute; reflexivity.
  - vm_compute; reflexivity.
  - discriminate.
  - compute_done.
  - compute_done.
  - compute_done.
  - compute_done.
  - all_bound_alive.
  - split; [vm_compute; discriminate|reflexivity].
  - vm_compute in Hl. destruct l1 as [|? [|??]]; [|discriminate..].
    vm_compute in Hw. subst w.
    exists tr, σ', v'. split_and!; [done|done| |done|done|done|done].
    apply Hacc; [discriminate|reflexivity].
Defined.

Lemma two_way_bind_witness :
  ∃ pa pb σ1,
    three !! 1%positive = Some pa
    ∧ three !! 2%positive = Some pb
    ∧ AddBind 1 2 three = Some σ1
    ∧ (∃ tr σ' v',
         operator_assign (ord := table_order Z) 1 7%Z σ1 = (tr, Some (σ', v'))
         ∧ (EvNeq 2 0 7)%Z ∈ tr
         ∧ read 2 σ' = Some 7%Z
         ∧ read 1 σ' = Some 7%Z
         ∧ length (filter (λ e, is_call_of 1 0 e = true) tr) = 1
         ∧ (∀ e, e ∈ tr → is_callback_of 2 e = false))
    ∧ (∃ tr σ' v',
         operator_assign (ord := table_order Z) 2 7%Z σ1 = (tr, Some (σ', v'))
         ∧ (EvNeq 1 0 7)%Z ∈ tr
         ∧ read 1 σ' = Some 7%Z
         ∧ read 2 σ' = Some 7%Z
         ∧ length (filter (λ e, is_call_of 2 0 e = true) tr) = 1
         ∧ (∀ e, e ∈ tr → is_callback_of 1 e = false)).
Proof.
  do 3 eexists. do 3 (split; [vm_compute; reflexivity|]).
  edestruct (two_way_bind (ord := table_order Z) 1 2) with (σ := three) (v := 7%Z)
    as [Hab Hba].
  - discriminate.
  - vm_compute; reflexivity.
  - vm_compute; reflexivity.
  - compute_done.
  - compute_done.
  - all_bound_alive.
  - all_bound_alive.
  - vm_compute; reflexivity.
  - split.
    + destruct Hab as (tr & σ' & v' & w & l1 & l2 & Hrun & Hl & Hw & Hev & _
                       & Hacc & _ & Hkeep & Ha & Hcount & Hnone).
      { split; [vm_compute; discriminate|reflexivity]. }
      vm_compute in Hl. destruct l1 as [|? [|??]]; [|discriminate..].
      vm_compute in Hw. subst w.
      exists tr, σ', v'. split_and!; [done|done| |done| |done].
      * apply Hacc; [discriminate|reflexivity].
      * apply (Hcount 0%N 1%positive (λ o n, (o, n))). vm_compute; reflexivity.
    + destruct Hba as (tr & σ' & v' & w & l1 & l2 & Hrun & Hl & Hw & Hev & _
                       & Hacc & _ & Hkeep & Hb & Hcount & Hnone).
      { split; [vm_compute; discriminate|reflexivity]. }
      vm_compute in Hl. destruct l1 as [|? [|??]]; [|discriminate..].
      vm_compute in Hw. subst w.
      exists tr, σ', v'. split_and!; [done|done| |done| |done].
      * apply Hacc; [discriminate|reflexivity].
      * apply (Hcount 0%N 1%positive (λ o n, (o, n))). vm_compute; reflexivity.
Defined.

(** A listener on 1 overwrites [newValue] with the 0 that 2 holds: writing
    7 to 1 stores 7 in 1, but 2, which has neither validator nor coercer,
    is offered 0 and keeps 0, under either order. *)
Lemma listener_hides_the_value_from_target :
  chain_hushed_run.1 = [EvNeq 1 0 7; EvCallback 1 0 0 7; EvNeq 2 0 0]%Z
  ∧ value_after chain_hushed_run.2 1 = Some 7%Z
  ∧ value_after chain_hushed_run.2 2 = Some 0%Z
  ∧ chain_hushed_run_rev.1 = [EvNeq 1 0 7; EvCallback 1 0 0 7; EvNeq 2 0 0]%Z
  ∧ value_after chain_hushed_run_rev.2 1 = Some 7%Z
  ∧ value_after chain_hushed_run_rev.2 2 = Some 0%Z
  ∧ m_validator <$> chain_hushed !! 2%positive = Some None
  ∧ m_coerceCallback <$> chain_hushed !! 2%positive = Some None
  ∧ value_after chain_hushed_run.2 2 ≠ Some 7%Z
  ∧ value_after chain_hushed_run_rev.2 2 ≠ Some 7%Z.
Proof.
  split_and!; try (vm_compute; reflexivity); vm_compute; discriminate.
Qed.

(** The same listeners on two objects bound both ways: 7 written to 1
    leaves 2 at 0, and 7 written to 2 leaves 1 at 0, although neither has a
    validator or a coercer. *)
Lemma bound_object_misses_the_value :
  linked_hushed_run_1.1 = [EvNeq 1 0 7; EvCallback 1 0 0 7; EvNeq 2 0 0]%Z
  ∧ value_after linked_hushed_run_1.2 1 = Some 7%Z
  ∧ value_after linked_hushed_run_1.2 2 = Some 0%Z
  ∧ linked_hushed_run_2.1 = [EvNeq 2 0 7; EvCallback 2 0 0 7; EvNeq 1 0 0]%Z
  ∧ value_after linked_hushed_run_2.2 2 = Some 7%Z
  ∧ value_after linked_hushed_run_2.2 1 = Some 0%Z
  ∧ AddBind 1 2 three_hushed = Some linked_hushed
  ∧ m_validator <$> linked_hushed !! 2%positive = Some None
  ∧ m_coerceCallback <$> linked_hushed !! 2%positive = Some None
  ∧ m_validator <$> linked_hushed !! 1%positive = Some None
  ∧ m_coerceCallback <$> linked_hushed !! 1%positive = Some None
  ∧ value_after linked_hushed_run_1.2 2 ≠ Some 7%Z
  ∧ value_after linked_hushed_run_2.2 1 ≠ Some 7%Z.
Proof.
  split_and!; try (vm_compute; reflexivity); vm_compute; discriminate.
Qed.

(** Two bound objects with coercers: whichever is visited second is offered
    what the first one's coercer made of the committed 7. *)
Lemma targets_offered_different_values :
  fan_out_run.1 =
    [EvNeq 1 0 7; EvNeq 3 0 7; EvCoerce 3 7; EvNeq 2 0 1007; EvCoerce 2 1007]%Z
  ∧ value_after fan_out_run.2 1 = Some 7%Z
  ∧ fan_out_run_rev.1 =
      [EvNeq 1 0 7; EvNeq 2 0 7; EvCoerce 2 7; EvNeq 3 0 107; EvCoerce 3 107]%Z
  ∧ value_after fan_out_run_rev.2 1 = Some 7%Z
  ∧ ¬ (∀ x cur w, x ≠ 1%positive → EvNeq x cur w ∈ fan_out_run.1 → w = 7%Z)
  ∧ ¬ (∀ x cur w, x ≠ 1%positive → EvNeq x cur w ∈ fan_out_run_rev.1 → w = 7%Z).
Proof.
  assert (fan_out_run.1 =
    [EvNeq 1 0 7; EvNeq 3 0 7; EvCoerce 3 7; EvNeq 2 0 1007; EvCoerce 2 1007]%Z)
    as Hrun by (vm_compute; reflexivity).
  assert (fan_out_run_rev.1 =
    [EvNeq 1 0 7; EvNeq 2 0 7; EvCoerce 2 7; EvNeq 3 0 107; EvCoerce 3 107]%Z)
    as Hrev by (vm_compute; reflexivity).
  split_and!; [done|vm_compute; reflexivity|done|vm_compute; reflexivity| |].
  - intros Hsame. assert (1007 = 7)%Z as Heq; [|discriminate Heq].
    apply (Hsame 2%positive 0%Z); [discriminate|]. rewrite Hrun. in_list.
  - intros Hsame. assert (107 = 7)%Z as Heq; [|discriminate Heq].
    apply (Hsame 3%positive 0%Z); [discriminate|]. rewrite Hrev. in_list.
Qed.

Lemma targets_share_one_variable_witness :
  ∃ p,
    fan_out !! 1%positive = Some p
    ∧ commits p 7%Z
    ∧ ∃ tr σ' v',
      operator_assign (ord := table_order Z) 1 7%Z fan_out = (tr, Some (σ', v'))
      ∧ ∀ l1 x l2 b,
          set_iter (IterOrder := table_order Z) (m_bindings p) = l1 ++ x :: l2 →
          fan_out !! x = Some b →
          let w := passed_along fan_out l1
                     (after_callbacks
                        (map_iter (IterOrder := table_order Z) (m_callbacks p))
                        (m_value p) (commit_value p 7%Z)).2 in
          EvNeq x (m_value b) w ∈ tr
          ∧ σ' !! x = Some (with_value (offered_value b w) b)
          ∧ (listeners_keep (map_iter (IterOrder := table_order Z) (m_callbacks p)) →
             (∀ y by', y ∈ l1 → fan_out !! y = Some by' →
                passed_on by' (commit_value p 7%Z) = commit_value p 7%Z) →
             w = commit_value p 7%Z).
Proof.
  eexists. split; [vm_compute; reflexivity|].
  split; [split; [vm_compute; discriminate|reflexivity]|].
  apply (targets_share_one_variable (ord := table_order Z) 1%positive _ fan_out 7%Z).
  - vm_compute; reflexivity.
  - split; [vm_compute; discriminate|reflexivity].
  - compute_done.
  - all_bound_alive.
Defined.

(** Three listeners that each overwrite [newValue], two bound objects with
    coercers.  Under the first order listener 2 runs first and leaves 70,
    yet listener 0, called later, receives 60; the last listener leaves 50,
    yet object 2 is offered 1050.  Under the reverse order listener 0 leaves
    50, listener 2 receives 60; the last listener leaves 70, object 3 is
    offered 170.  The object itself holds 7 throughout. *)
Lemma overwritten_value_not_what_all_receive :
  rewritten_run.1 =
    [EvNeq 1 0 7; EvCallback 1 2 0 7; EvCallback 1 1 0 70; EvCallback 1 0 0 60;
     EvNeq 3 0 50; EvCoerce 3 50; EvNeq 2 0 1050; EvCoerce 2 1050]%Z
  ∧ value_after rewritten_run.2 1 = Some 7%Z
  ∧ rewritten_run_rev.1 =
      [EvNeq 1 0 7; EvCallback 1 0 0 7; EvCallback 1 1 0 50; EvCallback 1 2 0 60;
       EvNeq 2 0 70; EvCoerce 2 70; EvNeq 3 0 170; EvCoerce 3 170]%Z
  ∧ value_after rewritten_run_rev.2 1 = Some 7%Z
  ∧ ¬ (∀ id o n, id ≠ 2%N → EvCallback 1 id o n ∈ rewritten_run.1 → n = 70%Z)
  ∧ ¬ (∀ x cur w, x ≠ 1%positive → EvNeq x cur w ∈ rewritten_run.1 → w = 50%Z)
  ∧ ¬ (∀ id o n, id ≠ 0%N → EvCallback 1 id o n ∈ rewritten_run_rev.1 → n = 50%Z)
  ∧ ¬ (∀ x cur w, x ≠ 1%positive → EvNeq x cur w ∈ rewritten_run_rev.1 → w = 70%Z).
Proof.
  assert (rewritten_run.1 =
    [EvNeq 1 0 7; EvCallback 1 2 0 7; EvCallback 1 1 0 70; EvCallback 1 0 0 60;
     EvNeq 3 0 50; EvCoerce 3 50; EvNeq 2 0 1050; EvCoerce 2 1050]%Z)
    as Hrun by (vm_compute; reflexivity).
  assert (rewritten_run_rev.1 =
    [EvNeq 1 0 7; EvCallback 1 0 0 7; EvCallback 1 1 0 50; EvCallback 1 2 0 60;
     EvNeq 2 0 70; EvCoerce 2 70; EvNeq 3 0 170; EvCoerce 3 170]%Z)
    as Hrev by (vm_compute; reflexivity).
  split_and!; [done|vm_compute; reflexivity|done|vm_compute; reflexivity| | | |].
  - intros Hall. assert (60 = 70)%Z as Heq; [|discriminate Heq].
    apply (Hall 0%N 0%Z); [discriminate|]. rewrite Hrun. in_list.
  - intros Hall. assert (1050 = 50)%Z as Heq; [|discriminate Heq].
    apply (Hall 2%positive 0%Z); [discriminate|]. rewrite Hrun. in_list.
  - intros Hall. assert (60 = 50)%Z as Heq; [|discriminate Heq].
    apply (Hall 2%N 0%Z); [discriminate|]. rewrite Hrev. in_list.
  - intros Hall. assert (170 = 70)%Z as Heq; [|discriminate Heq].
    apply (Hall 3%positive 0%Z); [discriminate|]. rewrite Hrev. in_list.
Qed.

Lemma listener_mutation_is_shared_witness :
  ∃ p,
    fan_out_rewritten !! 1%positive = Some p
    ∧ commits p 7%Z
    ∧ ∃ tr σ',
      operator_assign (ord := table_order Z) 1 7%Z fan_out_rewritten =
        (tr, Some (σ', 1150%Z))
      ∧ read 1 σ' = Some 7%Z
      ∧ (EvCallback 1 2 0 7)%Z ∈ tr
      ∧ (EvCallback 1 1 0 70)%Z ∈ tr
      ∧ (EvCallback 1 0 0 60)%Z ∈ tr
      ∧ (EvNeq 3 0 50)%Z ∈ tr
      ∧ (EvNeq 2 0 1050)%Z ∈ tr.
Proof.
  eexists. split; [vm_compute; reflexivity|].
  split; [split; [vm_compute; discriminate|reflexivity]|].
  edestruct (listener_mutation_is_shared (ord := table_order Z) 1%positive)
    with (σ := fan_out_rewritten) (v := 7%Z)
    as (tr & σ' & Hrun & Hread & Hcalls & Hfirst & Hvisit).
  - vm_compute; reflexivity.
  - split; [vm_compute; discriminate|reflexivity].
  - compute_done.
  - all_bound_alive.
  - exists tr, σ'. split_and!.
    + exact Hrun.
    + exact Hread.
    + apply (Hcalls [] 2%N 2%positive (λ o _, (o, 70%Z)) [(1%N, overwrite 60); (0%N, overwrite 50)]).
      vm_compute; reflexivity.
    + apply (Hcalls [(2%N, overwrite 70)] 1%N 2%positive (λ o _, (o, 60%Z)) [(0%N, overwrite 50)]).
      vm_compute; reflexivity.
    + apply (Hcalls [(2%N, overwrite 70); (1%N, overwrite 60)] 0%N 2%positive (λ o _, (o, 50%Z)) []).
      vm_compute; reflexivity.
    + apply (Hfirst 3%positive [2%positive] (new_Property 0%Z None (plus 1000))).
      * vm_compute; reflexivity.
      * vm_compute; reflexivity.
    + apply (Hvisit [3%positive] 2%positive [] (new_Property 0%Z None (plus 100))).
      * vm_compute; reflexivity.
      * vm_compute; reflexivity.
Defined.

(** No coercer anywhere, one listener that overwrites [newValue]: the
    object takes the 7 written, the caller's variable ends as 42.  And a
    coercer that adds 1 is not applied to a 5 written over a 5. *)
Lemma caller_variable_overwritten_by_listener :
  caller_variable overwritten_run.2 = Some 42%Z
  ∧ value_after overwritten_run.2 1 = Some 7%Z
  ∧ m_coerceCallback <$> overwritten !! 1%positive = Some None
  ∧ m_bindings <$> overwritten !! 1%positive = Some ∅
  ∧ caller_variable overwritten_run.2 ≠ Some (coerced None 7%Z)
  ∧ m_coerceCallback <$> bumping !! 1%positive = Some (plus 1)
  ∧ caller_variable (operator_assign (ord := table_order Z) 1 5%Z bumping).2
    = Some 5%Z
  ∧ coerced (plus 1) 5%Z = 6%Z.
Proof.
  split_and!; try (vm_compute; reflexivity).
  vm_compute. discriminate.
Qed.

Lemma caller_variable_after_write_witness :
  ∃ p,
    fan_out !! 1%positive = Some p
    ∧ commits p 7%Z
    ∧ (∃ tr σ',
         operator_assign (ord := table_order Z) 1 7%Z fan_out
         = (tr, Some (σ', final_variable (ord := table_order Z) fan_out p 7%Z)))
    ∧ final_variable (ord := table_order Z) fan_out p 7%Z =
        coerced_along fan_out (set_iter (IterOrder := table_order Z) (m_bindings p))
          (coerced (m_coerceCallback p) 7%Z)
    ∧ final_variable (ord := table_order Z) fan_out p 7%Z = 1107%Z.
Proof.
  eexists. split; [vm_compute; reflexivity|].
  assert (∀ vd : Validator Z, vd = None → validator_keeps vd) as Hnone
    by (intros vd -> x; reflexivity).
  split; [split; [vm_compute; discriminate|reflexivity]|].
  edestruct (caller_variable_after_write (ord := table_order Z) 1%positive)
    with (σ := fan_out) (v := 7%Z) as (tr & σ' & Hrun & Hpure).
  - vm_compute; reflexivity.
  - compute_done.
  - all_bound_alive.
  - split_and!.
    + exists tr, σ'. exact Hrun.
    + apply Hpure.
      * split; [vm_compute; discriminate|reflexivity].
      * by apply Hnone.
      * intros id ty f Hin. apply map_iter_lookup in Hin.
        vm_compute in Hin. discriminate.
      * intros y b Hy Hb. apply Hnone.
        apply elem_of_elements in Hy. vm_compute in Hy.
        repeat (apply elem_of_cons in Hy as [->|Hy];
                [vm_compute in Hb; by injection Hb as <-|]).
        by apply elem_of_nil in Hy.
    + vm_compute; reflexivity.
Defined.

(** ** The further properties at work *)

Lemma ids_are_accounted_witness :
  ids_accounted (run_ops (ord := table_order Z) some_calls (new_Property 0%Z None None))
  ∧ (nextCallbackID
       (run_ops (ord := table_order Z) some_calls (new_Property 0%Z None None))
     ≤ N.of_nat (length some_calls))%N.
Proof.
  apply (ids_are_accounted (ord := table_order Z) 0%Z None None some_calls).
  vm_compute. reflexivity.
Defined.

Lemma add_uses_a_free_id_witness :
  let p := run_ops (ord := table_order Z) some_calls (new_Property 0%Z None None) in
  let r := AddChangeCallback observer p in
  m_callbacks p !! r.1 = None
  ∧ m_callbacks r.2 !! r.1 = Some observer
  ∧ (∀ id, id ≠ r.1 → m_callbacks r.2 !! id = m_callbacks p !! id)
  ∧ size (m_callbacks r.2) = S (size (m_callbacks p)).
Proof.
  apply (add_uses_a_free_id (ord := table_order Z) 0%Z None None some_calls observer).
  vm_compute. reflexivity.
Defined.

Lemma add_then_remove_witness :
  let p := run_ops (ord := table_order Z) some_calls (new_Property 0%Z None None) in
  let r := AddChangeCallback observer p in
  let q := RemoveChangeCallback_id r.1 r.2 in
  m_callbacks q = m_callbacks p
  ∧ m_availableIDs q = tail (m_availableIDs p) ++ [r.1]
  ∧ last (m_availableIDs q) = Some r.1.
Proof.
  apply (add_then_remove (ord := table_order Z) 0%Z None None some_calls observer).
  vm_compute. reflexivity.
Defined.

(** Removing by [exchanger] where only [observer] is registered erases
    [observer]; removing by a callback of another type changes nothing. *)
Lemma remove_by_callback_outcome_witness :
  RemoveChangeCallback (ord := table_order Z) (overwrite 1%Z)
    (listened (new_Property 0%Z None None))
  = listened (new_Property 0%Z None None)
  ∧ ∃ id' cb',
      m_callbacks (listened (new_Property 0%Z None None)) !! id' = Some cb'
      ∧ target_type cb' = target_type exchanger
      ∧ RemoveChangeCallback (ord := table_order Z) exchanger
          (listened (new_Property 0%Z None None))
        = with_registry
            (delete id' (m_callbacks (listened (new_Property 0%Z None None))))
            (m_availableIDs (listened (new_Property 0%Z None None)) ++ [id'])
            (nextCallbackID (listened (new_Property 0%Z None None)))
            (listened (new_Property 0%Z None None))
      ∧ size (m_callbacks
                (RemoveChangeCallback (ord := table_order Z) exchanger
                   (listened (new_Property 0%Z None None))))
        = pred (size (m_callbacks (listened (new_Property 0%Z None None)))).
Proof.
  split.
  - apply (remove_by_callback_outcome (ord := table_order Z)).
    intros id cb Hid.
    change (<[0%N := observer]> (∅ : gmap N (ChangeCallback Z)) !! id = Some cb) in Hid.
    apply lookup_insert_Some in Hid as [[_ <-]|[_ Hid]].
    + discriminate.
    + by rewrite lookup_empty in Hid.
  - apply (proj2 (remove_by_callback_outcome (ord := table_order Z) exchanger
                    (listened (new_Property 0%Z None None))) 0%N observer).
    + reflexivity.
    + reflexivity.
Defined.

Lemma remove_by_callback_confuses_functions_witness :
  m_callbacks
    (RemoveChangeCallback (ord := table_order Z)
       (Target 1 (λ o n : Z, (n, o))) (listened (new_Property 0%Z None None)))
  = delete 0%N (m_callbacks (listened (new_Property 0%Z None None)))
  ∧ m_availableIDs
      (RemoveChangeCallback (ord := table_order Z)
         (Target 1 (λ o n : Z, (n, o))) (listened (new_Property 0%Z None None)))
    = m_availableIDs (listened (new_Property 0%Z None None)) ++ [0%N].
Proof.
  apply (remove_by_callback_confuses_functions (ord := table_order Z)
           (listened (new_Property 0%Z None None)) 0%N 1%positive
           (λ o n, (o, n)) (λ o n, (n, o))).
  - reflexivity.
  - intros id' cb' Hid _.
    change (<[0%N := observer]> (∅ : gmap N (ChangeCallback Z)) !! id' = Some cb') in Hid.
    apply lookup_insert_Some in Hid as [[<- _]|[_ Hid]].
    + done.
    + by rewrite lookup_empty in Hid.
Defined.

Lemma counter_wraps_onto_id_0_witness :
  let r1 := AddChangeCallback exchanger worn in
  let r2 := AddChangeCallback (overwrite 1%Z) r1.2 in
  r1.1 = (size_t_modulus - 1)%N
  ∧ r2.1 = 0%N
  ∧ m_callbacks r2.2 !! 0%N = Some (overwrite 1%Z)
  ∧ size (m_callbacks r2.2) = S (size (m_callbacks worn)).
Proof.
  apply (counter_wraps_onto_id_0 worn observer exchanger (overwrite 1%Z)).
  - reflexivity.
  - reflexivity.
  - reflexivity.
  - vm_compute. reflexivity.
Defined.

Lemma binding_twice_is_once_witness :
  ∃ σ1 σ2,
    AddOneWayBind 1 2 three = Some σ1 ∧ AddOneWayBind 1 2 σ1 = Some σ1
    ∧ AddBind 1 2 three = Some σ2 ∧ AddBind 1 2 σ2 = Some σ2.
Proof.
  do 2 eexists. split_and!.
  - vm_compute; reflexivity.
  - apply (proj1 (binding_twice_is_once 1 2 three _)). vm_compute; reflexivity.
  - vm_compute; reflexivity.
  - apply (proj2 (binding_twice_is_once 1 2 three _)). vm_compute; reflexivity.
Defined.

Lemma AddBind_then_RemoveBind_witness :
  ∃ σ1,
    AddBind 1 2 three = Some σ1
    ∧ RemoveBind 1 2 σ1 = RemoveBind 1 2 three
    ∧ RemoveBind 1 2 σ1 = Some three.
Proof.
  eexists. split; [vm_compute; reflexivity|].
  edestruct (AddBind_then_RemoveBind (T := Z) 1 2) with (σ := three) as [Hsame Hback].
  - discriminate.
  - vm_compute; reflexivity.
  - vm_compute; reflexivity.
  - vm_compute; reflexivity.
  - split; [exact Hsame|]. apply Hback; compute_done.
Defined.

Lemma binding_changes_bindings_only_witness :
  ∃ σ1,
    AddBind 1 2 three = Some σ1
    ∧ (∀ x, option_Forall2 same_but_bindings (three !! x) (σ1 !! x))
    ∧ (∀ x, read x σ1 = read x three).
Proof.
  eexists. split; [vm_compute; reflexivity|].
  apply (binding_changes_bindings_only 1 2 three). left. vm_compute; reflexivity.
Defined.

Lemma unbound_target_is_left_alone_witness :
  ∃ pb σ1,
    chain !! 2%positive = Some pb
    ∧ RemoveOneWayBind 1 2 chain = Some σ1
    ∧ ∃ tr σ' v',
      operator_assign (ord := table_order Z) 1 7%Z σ1 = (tr, Some (σ', v'))
      ∧ σ' !! 2%positive = Some pb
      ∧ (∀ e, e ∈ tr → event_owner e ≠ 2%positive).
Proof.
  do 2 eexists. do 2 (split; [vm_compute; reflexivity|]).
  eapply (unbound_target_is_left_alone (ord := table_order Z) 1 2) with (σ := chain).
  - discriminate.
  - vm_compute; reflexivity.
  - vm_compute; reflexivity.
  - compute_done.
  - all_bound_alive.
  - vm_compute; reflexivity.
  - split; [vm_compute; discriminate|reflexivity].
Defined.

Lemma write_returns_iff_witness :
  ∃ p,
    chain !! 1%positive = Some p
    ∧ (is_Some (operator_assign (ord := table_order Z) 1 7%Z chain).2
       ↔ (commits p 7%Z →
          (1%positive ∉ m_bindings p) ∧ ∀ x, x ∈ m_bindings p → is_Some (chain !! x))).
Proof.
  eexists. split; [vm_compute; reflexivity|].
  apply (write_returns_iff (ord := table_order Z) 1%positive _ chain 7%Z).
  vm_compute; reflexivity.
Defined.

(** Object 1 bound to itself: writing 7 does not return, writing the 0 it
    holds does. *)
Lemma self_bound_write_never_returns_witness :
  ∃ p σ1,
    three !! 1%positive = Some p
    ∧ AddBind 1 1 three = Some σ1
    ∧ commits p 7%Z ∧ ¬ commits p 0%Z
    ∧ (operator_assign (ord := table_order Z) 1 7%Z σ1).2 = None
    ∧ is_Some (operator_assign (ord := table_order Z) 1 0%Z σ1).2.
Proof.
  do 2 eexists. do 2 (split; [vm_compute; reflexivity|]).
  split; [split; [vm_compute; discriminate|reflexivity]|].
  split; [by intros [Hne _]|].
  edestruct (self_bound_write_never_returns (ord := table_order Z) 1%positive)
    with (σ := three) (v := 7%Z) as [Hno _];
    [vm_compute; reflexivity|right; vm_compute; reflexivity|].
  edestruct (self_bound_write_never_returns (ord := table_order Z) 1%positive)
    with (σ := three) (v := 0%Z) as [_ Hyes];
    [vm_compute; reflexivity|right; vm_compute; reflexivity|].
  split.
  - apply Hno. split; [vm_compute; discriminate|reflexivity].
  - apply Hyes. by intros [Hne _].
Defined.

Lemma write_changes_values_only_witness :
  ∃ tr σ' v',
    operator_assign (ord := table_order Z) 1 7%Z chain = (tr, Some (σ', v'))
    ∧ ∀ x, option_Forall2 same_but_value (chain !! x) (σ' !! x).
Proof.
  do 3 eexists. split; [vm_compute; reflexivity|].
  eapply (write_changes_values_only (ord := table_order Z) 1 chain 7%Z).
  vm_compute; reflexivity.
Defined.

Lemma validators_hold_after_write_witness :
  ∃ tr σ' v',
    operator_assign (ord := table_order Z) 1 10%Z guarded = (tr, Some (σ', v'))
    ∧ ∀ x p', σ' !! x = Some p' → holds_valid p'.
Proof.
  do 3 eexists. split; [vm_compute; reflexivity|].
  eapply (validators_hold_after_write (ord := table_order Z) 1 guarded 10%Z).
  - intros x p Hx. unfold guarded in Hx.
    apply lookup_singleton_Some in Hx as [_ <-]. by intros z.
  - intros x p Hx. unfold guarded in Hx.
    apply lookup_singleton_Some in Hx as [_ <-]. reflexivity.
  - vm_compute; reflexivity.
Defined.

Lemma plain_targets_take_the_value_witness :
  ∃ p,
    chain !! 1%positive = Some p
    ∧ commit_value p 7%Z = 7%Z
    ∧ ∃ tr σ',
      operator_assign (ord := table_order Z) 1 7%Z chain
      = (tr, Some (σ', commit_value p 7%Z))
      ∧ read 1 σ' = Some (commit_value p 7%Z)
      ∧ (∀ x, x ∈ m_bindings p → read x σ' = Some (commit_value p 7%Z)).
Proof.
  eexists. split; [vm_compute; reflexivity|]. split; [reflexivity|].
  apply (plain_targets_take_the_value (ord := table_order Z) 1%positive _ chain 7%Z).
  - vm_compute; reflexivity.
  - split; [vm_compute; discriminate|reflexivity].
  - compute_done.
  - intros x Hx. each_member Hx.
    eexists. split; [vm_compute; reflexivity|]. done.
  - intros id ty f Hin o n. apply map_iter_lookup in Hin.
    change (<[0%N := observer]> (∅ : gmap N (ChangeCallback Z)) !! id
            = Some (Target ty f)) in Hin.
    apply lookup_insert_Some in Hin as [[_ Hf]|[_ Hin]].
    + injection Hf as _ <-. reflexivity.
    + by rewrite lookup_empty in Hin.
Defined.

(** The object holds 99 and clamps to 0..99: writing 150 stores 99 again
    and calls the listener with 99 and 99. *)
Lemma coerced_to_current_still_notifies_witness :
  ∃ p,
    at_bound !! 1%positive = Some p
    ∧ ∃ tr σ' v',
      operator_assign (ord := table_order Z) 1 150%Z at_bound = (tr, Some (σ', v'))
      ∧ σ' !! 1%positive = Some p
      ∧ (∀ id ty f, m_callbacks p !! id = Some (Target ty f) → calls_of 1 id tr = 1)
      ∧ (∀ id ty f k2,
           map_iter (IterOrder := table_order Z) (m_callbacks p)
           = (id, Target ty f) :: k2 →
           EvCallback 1 id (m_value p) (m_value p) ∈ tr).
Proof.
  eexists. split; [vm_compute; reflexivity|].
  apply (coerced_to_current_still_notifies (ord := table_order Z)
           1%positive _ at_bound 150%Z).
  - vm_compute; reflexivity.
  - vm_compute. discriminate.
  - reflexivity.
  - reflexivity.
  - reflexivity.
  - compute_done.
  - all_bound_alive.
Defined.

Lemma registration_decides_calls_witness :
  let added := AddChangeCallback observer (new_Property 0%Z None None) in
  (∃ tr σ' v',
     operator_assign (ord := table_order Z) 1 7%Z (<[1%positive := added.2]> three)
     = (tr, Some (σ', v'))
     ∧ calls_of 1 added.1 tr = 1)
  ∧ (∃ tr σ' v',
       operator_assign (ord := table_order Z) 1 7%Z
         (<[1%positive := RemoveChangeCallback_id 0 (new_Property 0%Z None None)]> three)
       = (tr, Some (σ', v'))
       ∧ calls_of 1 0 tr = 0).
Proof.
  apply (registration_decides_calls (ord := table_order Z) 1%positive
           (new_Property 0%Z None None) three 7%Z 1%positive (λ o n, (o, n)) 0%N).
  - split; [vm_compute; discriminate|reflexivity].
  - compute_done.
  - intros x Hx. simpl in Hx. by apply elem_of_empty in Hx.
Defined.

Lemma listeners_run_before_propagation_witness :
  ∃ p,
    chain !! 1%positive = Some p
    ∧ ∃ pre post,
      (operator_assign (ord := table_order Z) 1 7%Z chain).1 = pre ++ post
      ∧ (∀ e, e ∈ pre → event_owner e = 1%positive)
      ∧ (∀ e, e ∈ post →
           event_owner e ∈ m_bindings p ∧ event_owner e ≠ 1%positive
           ∧ is_callback e = false).
Proof.
  eexists. split; [vm_compute; reflexivity|].
  apply (listeners_run_before_propagation (ord := table_order Z) 1%positive _ chain 7%Z).
  vm_compute; reflexivity.
Defined.

(** The guarded 5 given a validator that rejects everything keeps its 5
    and refuses 10; given no validator it takes -1. *)
Lemma SetValidator_rules_next_write_witness :
  ∃ p,
    guarded !! 1%positive = Some p
    ∧ read 1 (<[1%positive := SetValidator reject_all p]> guarded) = Some 5%Z
    ∧ (∃ tr v',
         operator_assign (ord := table_order Z) 1 10%Z
           (<[1%positive := SetValidator reject_all p]> guarded)
         = (tr, Some (<[1%positive := SetValidator reject_all p]> guarded, v')))
    ∧ (∃ tr σ' v',
         operator_assign (ord := table_order Z) 1 (-1)%Z
           (<[1%positive := SetValidator None p]> guarded)
         = (tr, Some (σ', v'))
         ∧ read 1 σ' = Some (-1)%Z).
Proof.
  eexists. split; [vm_compute; reflexivity|].
  match goal with
  | |- context [SetValidator reject_all ?q] =>
      destruct (SetValidator_rules_next_write (ord := table_order Z)
                  1%positive q guarded reject_all 10%Z) as (Hread & Hrej & _);
        [vm_compute; reflexivity|];
      destruct (SetValidator_rules_next_write (ord := table_order Z)
                  1%positive q guarded None (-1)%Z) as (_ & _ & Hacc);
        [vm_compute; reflexivity|]
  end.
  split_and!.
  - exact Hread.
  - apply Hrej. reflexivity.
  - apply Hacc.
    + vm_compute. discriminate.
    + reflexivity.
    + compute_done.
    + all_bound_alive.
Defined.

(** The 5 with coercer [+1] given the coercer [+10] instead: writing 7
    stores 17; writing 5 is still skipped. *)
Lemma SetCoerceCallback_rules_next_write_witness :
  ∃ p,
    bumping !! 1%positive = Some p
    ∧ read 1 (<[1%positive := SetCoerceCallback (plus 10) p]> bumping) = Some 5%Z
    ∧ operator_assign (ord := table_order Z) 1 5%Z
        (<[1%positive := SetCoerceCallback (plus 10) p]> bumping)
      = ([EvNeq 1 5%Z 5%Z],
         Some (<[1%positive := SetCoerceCallback (plus 10) p]> bumping, 5%Z))
    ∧ (∃ tr σ' v',
         operator_assign (ord := table_order Z) 1 7%Z
           (<[1%positive := SetCoerceCallback (plus 10) p]> bumping)
         = (tr, Some (σ', v'))
         ∧ read 1 σ' = Some 17%Z).
Proof.
  eexists. split; [vm_compute; reflexivity|].
  match goal with
  | |- context [SetCoerceCallback (plus 10) ?q] =>
      destruct (SetCoerceCallback_rules_next_write (ord := table_order Z)
                  1%positive q bumping (plus 10) 5%Z) as (Hread & Hskip & _);
        [vm_compute; reflexivity|];
      destruct (SetCoerceCallback_rules_next_write (ord := table_order Z)
                  1%positive q bumping (plus 10) 7%Z) as (_ & _ & Hacc);
        [vm_compute; reflexivity|]
  end.
  split_and!.
  - exact Hread.
  - apply Hskip. reflexivity.
  - apply Hacc.
    + vm_compute. discriminate.
    + reflexivity.
    + compute_done.
    + all_bound_alive.
Defined.

(** The guarded 5: after writing 10 it reads 10, after writing -1 it reads
    5. *)
Lemma write_then_read_witness :
  ∃ p,
    guarded !! 1%positive = Some p
    ∧ commits p 10%Z ∧ ¬ commits p (-1)%Z
    ∧ (∃ tr σ' v',
         operator_assign (ord := table_order Z) 1 10%Z guarded = (tr, Some (σ', v'))
         ∧ read 1 σ' = Some (commit_value p 10%Z))
    ∧ (∃ tr σ' v',
         operator_assign (ord := table_order Z) 1 (-1)%Z guarded = (tr, Some (σ', v'))
         ∧ read 1 σ' = Some (m_value p)).
Proof.
  eexists. split; [vm_compute; reflexivity|].
  split; [split; [vm_compute; discriminate|reflexivity]|].
  split; [intros [_ Hok]; vm_compute in Hok; discriminate|].
  split.
  - do 3 eexists. split; [vm_compute; reflexivity|].
    eapply (proj1 (write_then_read (ord := table_order Z) 1%positive _ guarded 10%Z
                     _ _ _ ltac:(vm_compute; reflexivity) ltac:(vm_compute; reflexivity))).
    split; [vm_compute; discriminate|reflexivity].
  - do 3 eexists. split; [vm_compute; reflexivity|].
    eapply (proj2 (write_then_read (ord := table_order Z) 1%positive _ guarded (-1)%Z
                     _ _ _ ltac:(vm_compute; reflexivity) ltac:(vm_compute; reflexivity))).
    intros [_ Hok]. vm_compute in Hok. discriminate.
Defined.

(** After [1.AddOneWayToSourceBind(2)] on the plain objects, 7 written to
    2 reaches 1, and 7 written to 1 does not reach 2. *)
Lemma source_bind_direction_witness :
  ∃ σ1,
    AddOneWayToSourceBind 1 2 three = Some σ1
    ∧ (∃ tr σ' v',
         operator_assign (ord := table_order Z) 2 7%Z σ1 = (tr, Some (σ', v'))
         ∧ (EvNeq 1 0 7)%Z ∈ tr
         ∧ read 1 σ' = Some 7%Z
         ∧ read 2 σ' = Some 7%Z)
    ∧ (∃ tr σ' v',
         operator_assign (ord := table_order Z) 1 7%Z σ1 = (tr, Some (σ', v'))
         ∧ σ' !! 2%positive = σ1 !! 2%positive
         ∧ (∀ e, e ∈ tr → event_owner e ≠ 2%positive)).
Proof.
  eexists. split; [vm_compute; reflexivity|].
  edestruct (source_bind_direction (ord := table_order Z) 1 2)
    with (σ := three) (v := 7%Z) as [Hba Hab].
  - discriminate.
  - vm_compute; reflexivity.
  - vm_compute; reflexivity.
  - compute_done.
  - compute_done.
  - compute_done.
  - all_bound_alive.
  - all_bound_alive.
  - vm_compute; reflexivity.
  - split.
    + destruct Hba as (tr & σ' & v' & w & l1 & l2 & Hrun & Hl & Hw & Hev & _
                       & Hacc & Hkeep & Hb).
      { split; [vm_compute; discriminate|reflexivity]. }
      vm_compute in Hl. destruct l1 as [|? [|??]]; [|discriminate..].
      vm_compute in Hw. subst w.
      exists tr, σ', v'. split_and!; [done|done| |done].
      apply Hacc; [discriminate|reflexivity].
    + apply Hab. split; [vm_compute; discriminate|reflexivity].
Defined.

Lemma RemoveBind_stops_both_ways_witness :
  ∃ σ1,
    RemoveBind 1 2 linked = Some σ1
    ∧ (∃ tr σ' v',
         operator_assign (ord := table_order Z) 1 7%Z σ1 = (tr, Some (σ', v'))
         ∧ σ' !! 2%positive = σ1 !! 2%positive
         ∧ (∀ e, e ∈ tr → event_owner e ≠ 2%positive))
    ∧ (∃ tr σ' v',
         operator_assign (ord := table_order Z) 2 7%Z σ1 = (tr, Some (σ', v'))
         ∧ σ' !! 1%positive = σ1 !! 1%positive
         ∧ (∀ e, e ∈ tr → event_owner e ≠ 1%positive)).
Proof.
  eexists. split; [vm_compute; reflexivity|].
  edestruct (RemoveBind_stops_both_ways (ord := table_order Z) 1 2)
    with (σ := linked) (v := 7%Z) as [Hab Hba].
  - discriminate.
  - vm_compute; reflexivity.
  - vm_compute; reflexivity.
  - compute_done.
  - compute_done.
  - all_bound_alive.
  - all_bound_alive.
  - vm_compute; reflexivity.
  - split.
    + apply Hab. split; [vm_compute; discriminate|reflexivity].
    + apply Hba. split; [vm_compute; discriminate|reflexivity].
Defined.

Lemma constructed_object_write_witness :
  ∃ tr σ' v',
    operator_assign (ord := table_order Z) 1 7%Z fresh = (tr, Some (σ', v'))
    ∧ (∀ e, e ∈ tr → event_owner e = 1%positive ∧ is_callback e = false)
    ∧ (∀ x, x ≠ 1%positive → σ' !! x = fresh !! x).
Proof.
  apply (constructed_object_write (ord := table_order Z) 1%positive
           5%Z positive_only (plus 1) fresh 7%Z).
  reflexivity.
Defined.
